(** * Training helpers of GenEx_Cyberbullying: [code/utils/helper.py]

    A shallow embedding of the helper module and the properties its
    specification states about it.

    Conventions of the embedding.
    - Floating-point tensor entries are real numbers ([R]); rounding,
      overflow and NaN are outside the model, and a division is the total
      division of [R].
    - A Python exception is [None] in the [option] monad (or an explicit
      [Raise] where the state left behind matters).
    - Integer tensors and Python integers are [Z]; shapes and positions
      are [nat].
    - Libraries outside the repository ([torch], [nltk]) are modelled from
      their documented behaviour in the modules [Py], [Torch] and [Nltk]. *)

From Stdlib Require Import Reals Lra Lia ZArith List Bool Arith.
Import ListNotations.

Open Scope R_scope.

(** ** The exception monad *)

Definition bind {A B : Type} (m : option A) (k : A -> option B) : option B :=
  match m with
  | Some a => k a
  | None => None
  end.

Notation "x <- m ;; k" := (bind m (fun x => k))
  (at level 61, m at next level, right associativity).

Notation "' pat <- m ;; k" := (bind m (fun x => match x with pat => k end))
  (at level 61, pat pattern, m at next level, right associativity).

(** ** Python sequences *)

Module Py.

(** [enumerate(xs)]. *)
Definition enumerate {A : Type} (xs : list A) : list (nat * A) :=
  combine (seq 0 (length xs)) xs.

(** The stop position of the slice [[:e]] on a sequence of length [n]:
    a negative [e] counts from the end, and the result is clamped to
    [[0, n]]. *)
Definition slice_stop (n : nat) (e : Z) : nat :=
  if (e <? 0)%Z then Z.to_nat (Z.of_nat n + e) else Nat.min (Z.to_nat e) n.

(** [xs[:e]]. *)
Definition slice_to {A : Type} (e : Z) (xs : list A) : list A :=
  firstn (slice_stop (length xs) e) xs.

(** The start position of the slice [[b:]]. *)
Definition slice_start (n : nat) (b : Z) : nat :=
  if (b <? 0)%Z then Z.to_nat (Z.of_nat n + b) else Nat.min (Z.to_nat b) n.

(** [xs[b:e]]; empty when the stop is not after the start. *)
Definition slice {A : Type} (b e : Z) (xs : list A) : list A :=
  let n := length xs in
  skipn (slice_start n b) (firstn (slice_stop n e) xs).

End Py.

(** ** Tensors *)

Module Torch.

(** A tensor is its shape and its entries; entries outside the shape are
    never read. *)
Record Tensor1 := mkT1 { len1 : nat; get1 : nat -> R }.
Record Tensor2 := mkT2 { rows2 : nat; cols2 : nat; get2 : nat -> nat -> R }.
Record Tensor3 :=
  mkT3 { dim0 : nat; dim1 : nat; dim2 : nat; get3 : nat -> nat -> nat -> R }.

(** Integer ([long]) tensors. *)
Record LongTensor1 := mkL1 { llen : nat; lget1 : nat -> Z }.
Record LongTensor2 :=
  mkL2 { lrows : nat; lcols : nat; lget : nat -> nat -> Z }.

(** [sum_upto n f] is [f 0 + ... + f (n-1)]. *)
Fixpoint sum_upto (n : nat) (f : nat -> R) : R :=
  match n with
  | O => 0
  | S m => sum_upto m f + f m
  end.

(** Broadcasting of one dimension: equal sizes, or one of them is 1. *)
Definition bdim (a b : nat) : option nat :=
  if (a =? b)%nat then Some a
  else if (a =? 1)%nat then Some b
  else if (b =? 1)%nat then Some a
  else None.

(** Reading a broadcast operand: a dimension of size 1 is read at 0. *)
Definition bidx (size i : nat) : nat := if (size =? 1)%nat then O else i.

Definition bget2 (t : Tensor2) (i j : nat) : R :=
  get2 t (bidx (rows2 t) i) (bidx (cols2 t) j).

Definition bget1 (t : Tensor1) (i : nat) : R := get1 t (bidx (len1 t) i).

(** [torch.zeros(r, c)]. *)
Definition zeros (r c : nat) : Tensor2 := mkT2 r c (fun _ _ => 0).

(** [torch.log(t)], elementwise. *)
Definition log (t : Tensor2) : Tensor2 :=
  mkT2 (rows2 t) (cols2 t) (fun i j => ln (get2 t i j)).

(** [-t]. *)
Definition neg (t : Tensor2) : Tensor2 :=
  mkT2 (rows2 t) (cols2 t) (fun i j => - get2 t i j).

(** [t.unsqueeze(1)] of a vector: shape [(n, 1)]. *)
Definition unsqueeze1 (t : Tensor1) : Tensor2 :=
  mkT2 (len1 t) 1 (fun i _ => get1 t i).

(** [x * y] with broadcasting; a shape mismatch raises. *)
Definition mul (x y : Tensor2) : option Tensor2 :=
  r <- bdim (rows2 x) (rows2 y) ;;
  c <- bdim (cols2 x) (cols2 y) ;;
  Some (mkT2 r c (fun i j => bget2 x i j * bget2 y i j)).

(** [t.sum(-1)]. *)
Definition sum_last (t : Tensor2) : Tensor1 :=
  mkT1 (rows2 t) (fun i => sum_upto (cols2 t) (get2 t i)).

(** [x / y] on vectors, with broadcasting. *)
Definition div1 (x y : Tensor1) : option Tensor1 :=
  n <- bdim (len1 x) (len1 y) ;;
  Some (mkT1 n (fun i => bget1 x i / bget1 y i)).

(** [t.mean()]. *)
Definition mean1 (t : Tensor1) : R :=
  sum_upto (len1 t) (get1 t) / INR (len1 t).

Definition mean2 (t : Tensor2) : R :=
  sum_upto (rows2 t) (fun i => sum_upto (cols2 t) (get2 t i))
  / INR (rows2 t * cols2 t).

(** [k * t] for a scalar [k]. *)
Definition scale1 (k : R) (t : Tensor1) : Tensor1 :=
  mkT1 (len1 t) (fun i => k * get1 t i).

(** [mask[i, :l] = 1]: row [i] must exist; the slice is clamped. *)
Definition set_row_prefix (mask : Tensor2) (i : nat) (l : Z) : option Tensor2 :=
  if (i <? rows2 mask)%nat then
    let stop := Py.slice_stop (cols2 mask) l in
    Some (mkT2 (rows2 mask) (cols2 mask)
            (fun a b =>
               if ((a =? i)%nat && (b <? stop)%nat)%bool then 1 else get2 mask a b))
  else None.

End Torch.

Import Torch.

(** ** [cal_reward_loss] *)

(** The loop [for i, l in enumerate(idxs): mask[i, :l] = 1]. *)
Fixpoint fill_mask (il : list (nat * Z)) (mask : Tensor2) : option Tensor2 :=
  match il with
  | [] => Some mask
  | (i, l) :: rest =>
      mask' <- set_row_prefix mask i l ;;
      fill_mask rest mask'
  end.

Definition cal_reward_loss (sample_probs : Tensor2) (reward : Tensor1)
    (idxs : option (list Z)) : option R :=
  let sample_logprobs := log sample_probs in
  let reward := unsqueeze1 reward in
  match idxs with
  | Some idxs =>
      let batch_size := rows2 sample_probs in
      let max_len := cols2 sample_probs in
      mask <- fill_mask (Py.enumerate idxs) (zeros batch_size max_len) ;;
      weighted <- mul (neg sample_logprobs) reward ;;
      output <- mul weighted mask ;;
      per_seq <- div1 (sum_last output) (sum_last mask) ;;
      Some (mean1 per_seq)
  | None =>
      output <- mul (neg sample_logprobs) reward ;;
      Some (mean2 output)
  end.

(** ** BLEU, after [nltk.translate.bleu_score] *)

Module Nltk.

Definition ngram := list Z.

Definition ngram_eq_dec : forall a b : ngram, {a = b} + {a <> b} :=
  list_eq_dec Z.eq_dec.

(** [nltk.util.ngrams(s, n)]: the contiguous runs of [n] tokens. *)
Fixpoint ngrams (n : nat) (s : list Z) : list ngram :=
  match s with
  | [] => []
  | _ :: tl =>
      if (n <=? length s)%nat then firstn n s :: ngrams n tl else []
  end.

(** [Counter(grams)[g]]. *)
Definition count (grams : list ngram) (g : ngram) : nat :=
  count_occ ngram_eq_dec grams g.

(** The largest count of [g] over the references ([max_counts[g]]). *)
Definition max_count (n : nat) (references : list (list Z)) (g : ngram) : nat :=
  fold_left (fun m reference => Nat.max m (count (ngrams n reference) g))
    references O.

(** [modified_precision(references, hypothesis, n)] as the pair
    (numerator, denominator) of the unnormalised fraction. *)
Definition modified_precision (references : list (list Z))
    (hypothesis : list Z) (n : nat) : nat * nat :=
  let counts := ngrams n hypothesis in
  let clipped :=
    map (fun g => Nat.min (count counts g) (max_count n references g))
      (nodup ngram_eq_dec counts) in
  (list_sum clipped, Nat.max 1 (length counts)).

(** The key [(abs(ref_len - hyp_len), ref_len)] of [closest_ref_length]. *)
Definition closer (hyp_len a b : nat) : bool :=
  let da := (a - hyp_len + (hyp_len - a))%nat in
  let db := (b - hyp_len + (hyp_len - b))%nat in
  ((da <? db) || ((da =? db) && (a <=? b)))%nat.

(** [closest_ref_length(references, hyp_len)]; [min] of an empty
    sequence raises. *)
Definition closest_ref_length (references : list (list Z)) (hyp_len : nat)
  : option nat :=
  match map (@length Z) references with
  | [] => None
  | l :: ls =>
      Some (fold_left (fun best x => if closer hyp_len best x then best else x)
              ls l)
  end.

(** [brevity_penalty(closest_ref_len, hyp_len)]. *)
Definition brevity_penalty (closest_ref_len hyp_len : nat) : R :=
  if (closest_ref_len <? hyp_len)%nat then 1
  else if (hyp_len =? 0)%nat then 0
  else exp (1 - INR closest_ref_len / INR hyp_len).

(** [SmoothingFunction().method1], with its default [epsilon = 0.1]. *)
Definition epsilon : R := 1 / 10.

Definition method1 (p_n : list (nat * nat)) : list R :=
  map (fun p =>
         if (fst p =? 0)%nat then (INR (fst p) + epsilon) / INR (snd p)
         else INR (fst p) / INR (snd p))
    p_n.

(** The default weights [(0.25, 0.25, 0.25, 0.25)]. *)
Definition weights : list R := [1 / 4; 1 / 4; 1 / 4; 1 / 4].

(** [math.fsum(w_i * math.log(p_i) for w_i, p_i in zip(weights, p_n)
    if p_i > 0)]. *)
Definition log_precisions (ws p_n : list R) : R :=
  fold_right Rplus 0
    (map (fun wp => if Rlt_dec 0 (snd wp) then fst wp * ln (snd wp) else 0)
       (combine ws p_n)).

(** [sentence_bleu(references, hypothesis,
    smoothing_function=SmoothingFunction().method1)], which is
    [corpus_bleu] on one sentence: 0 as soon as no unigram matches, before
    any smoothing is applied. *)
Definition sentence_bleu (references : list (list Z)) (hypothesis : list Z)
  : option R :=
  let p := map (modified_precision references hypothesis)
             (seq 1 (length weights)) in
  let hyp_len := length hypothesis in
  ref_len <- closest_ref_length references hyp_len ;;
  let bp := brevity_penalty ref_len hyp_len in
  if (fst (nth 0 p (O, O)) =? 0)%nat then Some 0
  else Some (bp * exp (log_precisions weights (method1 p))).

End Nltk.

(** [torch.FloatTensor(xs)] of a Python list of numbers. *)
Definition FloatTensor (xs : list R) : Tensor1 :=
  mkT1 (length xs) (fun i => nth i xs 0).

(** ** [cal_bl_reward] *)

(** The loop [for hyp, ref in zip(inp, tgt): bleus.append(...)]. *)
Fixpoint bleu_each (pairs : list (list Z * list Z)) : option (list R) :=
  match pairs with
  | [] => Some []
  | (hyp, ref) :: rest =>
      b <- Nltk.sentence_bleu [ref] hyp ;;
      bs <- bleu_each rest ;;
      Some (b :: bs)
  end.

Definition cal_bl_reward (inp tgt : list (list Z)) : option Tensor1 :=
  bleus <- bleu_each (combine inp tgt) ;;
  Some (FloatTensor bleus).

(** ** More of [torch]: softmax, max, gather, row assignment *)

Module TorchOps.

(** [F.softmax(t, dim=-1)]. *)
Definition softmax3 (t : Tensor3) : Tensor3 :=
  mkT3 (dim0 t) (dim1 t) (dim2 t)
    (fun b l v =>
       exp (get3 t b l v) / sum_upto (dim2 t) (fun k => exp (get3 t b l k))).

Definition softmax2 (t : Tensor2) : Tensor2 :=
  mkT2 (rows2 t) (cols2 t)
    (fun b v => exp (get2 t b v) / sum_upto (cols2 t) (fun k => exp (get2 t b k))).

(** [t[i]] of a 3-d tensor. *)
Definition slice0 (t : Tensor3) (i : nat) : Tensor2 :=
  mkT2 (dim1 t) (dim2 t) (get3 t i).

(** The first position of the largest of [f 0 .. f (n-1)]. *)
Fixpoint argmax_upto (n : nat) (f : nat -> R) : nat :=
  match n with
  | O => O
  | S m =>
      match m with
      | O => O
      | S _ =>
          let a := argmax_upto m f in
          if Rlt_dec (f a) (f m) then m else a
      end
  end.

(** The indices of [torch.max(t, dim=-1)]; an empty last dimension
    raises. *)
Definition max_indices (t : Tensor3) : option LongTensor2 :=
  if (dim2 t =? 0)%nat then None
  else Some (mkL2 (dim0 t) (dim1 t)
               (fun b l => Z.of_nat (argmax_upto (dim2 t) (get3 t b l)))).

(** [s.gather(1, idx)]: entry [(t, c)] is [s[t][idx[t][c]]]; an index
    outside the row raises. *)
Definition gather1 (s : Tensor2) (idx : LongTensor2) : option Tensor2 :=
  if ((lrows idx <=? rows2 s)%nat
      && forallb (fun t =>
           forallb (fun c =>
             (0 <=? lget idx t c)%Z && (lget idx t c <? Z.of_nat (cols2 s))%Z)
             (seq 0 (lcols idx)))
           (seq 0 (lrows idx)))%bool
  then Some (mkT2 (lrows idx) (lcols idx)
               (fun t c => get2 s t (Z.to_nat (lget idx t c))))
  else None.

(** [t.squeeze(1)] of a column, as a vector. *)
Definition squeeze1 (t : Tensor2) : option Tensor1 :=
  if (cols2 t =? 1)%nat then Some (mkT1 (rows2 t) (fun i => get2 t i O))
  else None.

(** [t.squeeze(1)] of a column of integers. *)
Definition lsqueeze1 (t : LongTensor2) : option LongTensor1 :=
  if (lcols t =? 1)%nat then Some (mkL1 (lrows t) (fun i => lget t i O))
  else None.

(** The conversion of integers that an assignment into a float buffer
    performs. *)
Definition to_float (v : LongTensor1) : Tensor1 :=
  mkT1 (llen v) (fun i => IZR (lget1 v i)).

(** [buf[i] = v]: row [i] must exist and [v] must broadcast to a row. *)
Definition set_row (buf : Tensor2) (i : nat) (v : Tensor1) : option Tensor2 :=
  if ((i <? rows2 buf)%nat
      && ((len1 v =? cols2 buf)%nat || (len1 v =? 1)%nat))%bool
  then Some (mkT2 (rows2 buf) (cols2 buf)
               (fun a b => if (a =? i)%nat then bget1 v b else get2 buf a b))
  else None.

(** Rounding towards zero, the conversion of a float to an integer. *)
Definition trunc (r : R) : Z :=
  if Rle_dec 0 r then Int_part r else (- Int_part (- r))%Z.

(** [t.long()]. *)
Definition long (t : Tensor2) : LongTensor2 :=
  mkL2 (rows2 t) (cols2 t) (fun i j => trunc (get2 t i j)).

(** [x - y] on vectors, with broadcasting. *)
Definition sub1 (x y : Tensor1) : option Tensor1 :=
  n <- bdim (len1 x) (len1 y) ;;
  Some (mkT1 n (fun i => bget1 x i - bget1 y i)).

(** [t[:, c]]. *)
Definition column (t : Tensor2) (c : nat) : option Tensor1 :=
  if (c <? cols2 t)%nat then Some (mkT1 (rows2 t) (fun i => get2 t i c))
  else None.

(** The rows of an integer tensor, as iteration over it yields them. *)
Definition long_rows (t : LongTensor2) : list (list Z) :=
  map (fun i => map (lget t i) (seq 0 (lcols t))) (seq 0 (lrows t)).

(** [torch.arange(len(s))[s.eq(x)]]: the positions holding [x]. *)
Definition positions_eq (x : Z) (s : list Z) : list nat :=
  map fst (filter (fun p => (snd p =? x)%Z) (Py.enumerate s)).

End TorchOps.

Import TorchOps.

Section Helper.

(** The state of torch's global random generator, and
    [torch.multinomial(s, 1)] on a matrix [s] of one distribution per row:
    it raises, or returns one drawn index per row (a column of shape
    [(rows, 1)]) and the next generator state. *)
Variable RNG : Type.
Variable multinomial : Tensor2 -> RNG -> option ((nat -> Z) * RNG).

(** [utils.dataset.collate_fn]: pads a list of id sequences into one
    batch tensor. *)
Variable collate_fn : list (list Z) -> LongTensor2.

(** ** [sample_3d] *)

(** The loop over the batch rows, from row [i] on ([todo] rows left). *)
Fixpoint sample_rows (temp : Tensor3) (todo i : nat)
    (sample_idx sample_probs : Tensor2) (g : RNG)
  : option (Tensor2 * Tensor2 * RNG) :=
  match todo with
  | O => Some (sample_idx, sample_probs, g)
  | S todo' =>
      let s := slice0 temp i in
      '(draw, g') <- multinomial s g ;;
      let temp_idx := mkL2 (rows2 s) 1 (fun t _ => draw t) in
      temp_probs <- gather1 s temp_idx ;;
      idx_row <- lsqueeze1 temp_idx ;;
      sample_idx' <- set_row sample_idx i (to_float idx_row) ;;
      probs_row <- squeeze1 temp_probs ;;
      sample_probs' <- set_row sample_probs i probs_row ;;
      sample_rows temp todo' (S i) sample_idx' sample_probs' g'
  end.

Definition sample_3d (probs : Tensor3) (temperature : R) (g : RNG)
  : option (Tensor2 * LongTensor2 * RNG) :=
  let sample_idx := zeros (dim0 probs) (dim1 probs) in
  let sample_probs := zeros (dim0 probs) (dim1 probs) in
  let temp :=
    if Req_EM_T temperature 1 then probs
    else mkT3 (dim0 probs) (dim1 probs) (dim2 probs)
           (fun b l v => exp (ln (get3 probs b l v + 1 / 10 ^ 20) / temperature)) in
  '(sample_idx, sample_probs, g') <-
     sample_rows temp (dim0 temp) O sample_idx sample_probs g ;;
  Some (sample_probs, long sample_idx, g').

(** ** [cal_sc_loss] *)

(** The body of the loop [for i, s in zip(idx.cpu(), sample_idx)]. *)
Definition sc_truncate (eos_token_id : Z) (i : Z) (s : list Z) : list Z :=
  let e := positions_eq eos_token_id s in
  let e :=
    match e with
    | e0 :: _ =>
        if ((4 <? Z.of_nat e0)%Z && (Z.of_nat e0 <? i)%Z)%bool
        then Z.of_nat e0 else (i - 1)%Z
    | [] => (i - 1)%Z
    end in
  Py.slice_to e s.

Definition sc_reward (style : Z) (tgt_cls : Tensor2) : option Tensor1 :=
  if (style =? 0)%Z then
    c1 <- column tgt_cls 1 ;; c0 <- column tgt_cls 0 ;; sub1 c1 c0
  else
    c0 <- column tgt_cls 0 ;; c1 <- column tgt_cls 1 ;; sub1 c0 c1.

Definition cal_sc_loss (out : Tensor3) (idx : list Z)
    (cls : LongTensor2 -> option Tensor2) (eos_token_id : Z) (style : Z)
    (g : RNG) : option (R * RNG) :=
  let out := softmax3 out in
  '(sample_probs, sample_idx, g') <- sample_3d out 1 g ;;
  let tgt :=
    map (fun p => sc_truncate eos_token_id (fst p) (snd p))
      (combine idx (long_rows sample_idx)) in
  let tgt_idx := collate_fn tgt in
  logits <- cls tgt_idx ;;
  let tgt_cls := softmax2 logits in
  tgt_reward <- sc_reward style tgt_cls ;;
  loss_sc <- cal_reward_loss sample_probs tgt_reward (Some idx) ;;
  Some (loss_sc, g').

(** ** [cal_bl_loss] *)

(** The end of a sequence: [e[0] if 0 < len(e) and 0 < e[0] < i else i - 1]. *)
Definition bl_end (eos_token_id : Z) (i : Z) (s : list Z) : Z :=
  match positions_eq eos_token_id s with
  | e0 :: _ =>
      if ((0 <? Z.of_nat e0)%Z && (Z.of_nat e0 <? i)%Z)%bool
      then Z.of_nat e0 else (i - 1)%Z
  | [] => (i - 1)%Z
  end.

(** The body of the loop [for i, s, g, t in zip(idx.cpu(), sample_idx,
    greedy_idx, tgt)]: the sampled, greedy and reference sequences that
    are appended. *)
Definition bl_truncate (eos_token_id : Z) (i : Z) (s g t : list Z)
  : list Z * list Z * list Z :=
  let s_e := bl_end eos_token_id i s in
  let g_e := bl_end eos_token_id i g in
  (Py.slice_to s_e s, Py.slice_to g_e g, Py.slice 1 i t).

(** [zip] of four sequences. *)
Fixpoint zip4 {A B C D : Type} (a : list A) (b : list B) (c : list C)
    (d : list D) : list (A * B * C * D) :=
  match a, b, c, d with
  | x :: a', y :: b', z :: c', w :: d' => (x, y, z, w) :: zip4 a' b' c' d'
  | _, _, _, _ => []
  end.

(** The three lists [tgt_sam], [tgt_gre], [tgt_ref] after the loop. *)
Definition bl_sequences (eos_token_id : Z) (idx : list Z)
    (sample_idx greedy_idx tgt : LongTensor2)
  : list (list Z * list Z * list Z) :=
  map (fun r =>
         match r with
         | (i, s, g, t) => bl_truncate eos_token_id i s g t
         end)
    (zip4 idx (long_rows sample_idx) (long_rows greedy_idx) (long_rows tgt)).

(** The reward handed to [cal_reward_loss]: [(tgt_gre - tgt_sam) * 0.2]. *)
Definition bl_reward (seqs : list (list Z * list Z * list Z)) : option Tensor1 :=
  let tgt_sam := map (fun r => fst (fst r)) seqs in
  let tgt_gre := map (fun r => snd (fst r)) seqs in
  let tgt_ref := map snd seqs in
  tgt_sam <- cal_bl_reward tgt_sam tgt_ref ;;
  tgt_gre <- cal_bl_reward tgt_gre tgt_ref ;;
  d <- sub1 tgt_gre tgt_sam ;;
  Some (mkT1 (len1 d) (fun b => get1 d b * (2 / 10))).

Definition cal_bl_loss (out : Tensor3) (tgt : LongTensor2) (idx : list Z)
    (eos_token_id : Z) (g : RNG) : option (R * RNG) :=
  let out := softmax3 out in
  '(sample_probs, sample_idx, g') <- sample_3d out 1 g ;;
  greedy_idx <- max_indices out ;;
  let seqs := bl_sequences eos_token_id idx sample_idx greedy_idx tgt in
  reward <- bl_reward seqs ;;
  loss_co <- cal_reward_loss sample_probs reward (Some idx) ;;
  Some (loss_co, g').

End Helper.

Arguments sample_rows {RNG} multinomial temp todo i sample_idx sample_probs g.
Arguments sample_3d {RNG} multinomial probs temperature g.
Arguments cal_sc_loss {RNG} multinomial collate_fn out idx cls eos_token_id
  style g.
Arguments cal_bl_loss {RNG} multinomial out tgt idx eos_token_id g.

(** The truncation of a greedy sequence in the loop of [evaluate]:
    [e = e[0] if 0 < len(e) and e[0] < 30 else 30], then [i[:e]]. *)
Definition eval_truncate (eos_token_id : Z) (i : list Z) : list Z :=
  let e := positions_eq eos_token_id i in
  let e :=
    match e with
    | e0 :: _ => if (Z.of_nat e0 <? 30)%Z then Z.of_nat e0 else 30%Z
    | [] => 30%Z
    end in
  Py.slice_to e i.

(** ** [make_padding_mask] *)

(** Tensors live in a store and are passed by reference, so that a
    function can be asked whether it mutates its argument. The data of a
    tensor is its shape and its entries in row-major order. *)
Module Store.

Inductive tensor :=
| Long (shape : list nat) (data : list Z)
| Bool (shape : list nat) (data : list bool).

Definition addr := nat.
Definition store := list tensor.

Definition alloc (v : tensor) (st : store) : addr * store :=
  (length st, st ++ [v]).

(** [t.eq(x)]: a fresh boolean tensor of the same shape. *)
Definition eq (t : addr) (x : Z) (st : store) : option (addr * store) :=
  match nth_error st t with
  | Some (Long shape data) =>
      Some (alloc (Bool shape (map (fun v => (v =? x)%Z) data)) st)
  | _ => None
  end.

(** [t.any()]. *)
Definition any (t : addr) (st : store) : option bool :=
  match nth_error st t with
  | Some (Bool _ data) => Some (existsb (fun b => b) data)
  | _ => None
  end.

End Store.

Definition make_padding_mask (input_ids : Store.addr) (padding_idx : Z)
    (st : Store.store) : option (option Store.addr * Store.store) :=
  '(padding_mask, st) <- Store.eq input_ids padding_idx st ;;
  b <- Store.any padding_mask st ;;
  let padding_mask := if negb b then None else Some padding_mask in
  Some (padding_mask, st).

(** The attention mask that [evaluate] builds for a batch:
    [mask = make_padding_mask(src, pad)], then
    [1 - mask.long() if mask is not None else None]. *)
Module StoreOps.

(** [t.long()] of a boolean tensor: a fresh tensor of 0s and 1s. *)
Definition long (t : Store.addr) (st : Store.store)
  : option (Store.addr * Store.store) :=
  match nth_error st t with
  | Some (Store.Bool shape data) =>
      Some (Store.alloc
              (Store.Long shape (map (fun b : bool => if b then 1%Z else 0%Z) data))
              st)
  | _ => None
  end.

(** [k - t] for a Python integer [k]: a fresh tensor. *)
Definition rsub (k : Z) (t : Store.addr) (st : Store.store)
  : option (Store.addr * Store.store) :=
  match nth_error st t with
  | Some (Store.Long shape data) =>
      Some (Store.alloc (Store.Long shape (map (fun v => (k - v)%Z) data)) st)
  | _ => None
  end.

End StoreOps.

Definition attention_mask (src : Store.addr) (pad_token_id : Z)
    (st : Store.store) : option (option Store.addr * Store.store) :=
  '(mask, st) <- make_padding_mask src pad_token_id st ;;
  match mask with
  | Some mask =>
      '(as_long, st) <- StoreOps.long mask st ;;
      '(mask, st) <- StoreOps.rsub 1 as_long st ;;
      Some (Some mask, st)
  | None => Some (None, st)
  end.

(** ** [evaluate] and [evaluate_sc] *)

Inductive exn :=
| NameError
| ZeroDivisionError
| RuntimeError.

(** A computation on a state [S] returns a value or raises, and leaves a
    state behind in both cases. *)
Inductive outcome (S A : Type) :=
| Return (a : A) (s : S)
| Raise (e : exn) (s : S).

Arguments Return {S A} a s.
Arguments Raise {S A} e s.

Definition final_state {S A : Type} (o : outcome S A) : S :=
  match o with
  | Return _ s => s
  | Raise _ s => s
  end.

(** What the evaluation loops touch: the mode flag of the model
    ([model.training]), torch's gradient mode, and everything else. *)
Record World (W : Type) :=
  mkWorld { training : bool; grad_enabled : bool; rest : W }.

Arguments mkWorld {W} training grad_enabled rest.
Arguments training {W} w.
Arguments grad_enabled {W} w.
Arguments rest {W} w.

Section Evaluate.

Variable W : Type.
Variable Batch : Type.

(** [model.eval()] and [model.train()]. *)
Definition model_eval (w : World W) : World W :=
  mkWorld false (grad_enabled w) (rest w).

Definition model_train (w : World W) : World W :=
  mkWorld true (grad_enabled w) (rest w).

(** [with torch.no_grad(): body]: the gradient mode is switched off for
    the body and put back on the way out, also when the body raises. *)
Definition with_no_grad {A : Type} (body : World W -> outcome (World W) A)
    (w : World W) : outcome (World W) A :=
  let prev := grad_enabled w in
  match body (mkWorld (training w) false (rest w)) with
  | Return a w' => Return a (mkWorld (training w') prev (rest w'))
  | Raise e w' => Raise e (mkWorld (training w') prev (rest w'))
  end.

(** The body of the loop over one batch (forward pass, loss, decoding,
    classification) is code outside this module: it returns what the loop
    accumulates, [(loss, correct, count)], or raises. *)
Variable eval_batch : Batch -> World W -> outcome (World W) (R * nat * nat).

(** [for batch in valid_loader: ...] with its three accumulators. *)
Fixpoint eval_loop (batches : list Batch) (total_num total_acc : nat)
    (total_loss : R) (w : World W) : outcome (World W) (nat * nat * R) :=
  match batches with
  | [] => Return (total_num, total_acc, total_loss) w
  | batch :: more =>
      match eval_batch batch w with
      | Raise e w' => Raise e w'
      | Return (loss, correct, count) w' =>
          eval_loop more (total_num + count) (total_acc + correct)
            (total_loss + loss) w'
      end
  end.

(** Returns [(total_loss / len(valid_loader), total_acc / total_num)]. *)
Definition evaluate (valid_loader : list Batch) (w : World W)
  : outcome (World W) (R * R) :=
  let w := model_eval w in
  match with_no_grad (eval_loop valid_loader 0 0 0) w with
  | Raise e w => Raise e w
  | Return (total_num, total_acc, total_loss) w =>
      let w := model_train w in
      if ((length valid_loader =? 0)%nat || (total_num =? 0)%nat)%bool
      then Raise ZeroDivisionError w
      else Return (total_loss / INR (length valid_loader),
                   INR total_acc / INR total_num) w
  end.

(** Returns [(total_acc / total_num, total_loss / total_num)]. *)
Definition evaluate_sc (valid_loader : list Batch) (w : World W)
  : outcome (World W) (R * R) :=
  let w := model_eval w in
  match with_no_grad (eval_loop valid_loader 0 0 0) w with
  | Raise e w => Raise e w
  | Return (total_num, total_acc, total_loss) w =>
      let w := model_train w in
      if (total_num =? 0)%nat then Raise ZeroDivisionError w
      else Return (INR total_acc / INR total_num,
                   total_loss / INR total_num) w
  end.

End Evaluate.

Arguments model_eval {W} w.
Arguments model_train {W} w.
Arguments evaluate {W Batch} eval_batch valid_loader w.
Arguments evaluate_sc {W Batch} eval_batch valid_loader w.

(** ** The formulas of the specification *)

(** [mask[i][j] = 1] iff [j < idxs[i]]. *)
Definition length_mask (idxs : list Z) (i j : nat) : R :=
  if (Z.of_nat j <? nth i idxs 0%Z)%Z then 1 else 0.

(** The mean over the batch of (masked weighted sum) / (mask sum). *)
Definition masked_mean_loss (sample_probs : Tensor2) (reward : Tensor1)
    (idxs : list Z) : R :=
  sum_upto (rows2 sample_probs)
    (fun i =>
       sum_upto (cols2 sample_probs)
         (fun j => - ln (get2 sample_probs i j) * get1 reward i
                   * length_mask idxs i j)
       / sum_upto (cols2 sample_probs) (length_mask idxs i))
  / INR (rows2 sample_probs).

(** The mean over all batch * length elements. *)
Definition plain_mean_loss (sample_probs : Tensor2) (reward : Tensor1) : R :=
  sum_upto (rows2 sample_probs)
    (fun i =>
       sum_upto (cols2 sample_probs)
         (fun j => - ln (get2 sample_probs i j) * get1 reward i))
  / INR (rows2 sample_probs * cols2 sample_probs).

(** Two token sequences share a token. *)
Definition share_token (hyp ref : list Z) : Prop :=
  exists x, In x hyp /\ In x ref.

(** A matrix of one distribution per row, as [torch.multinomial] accepts
    it: no negative entry, and a positive sum in every row. *)
Definition valid_dist (s : Tensor2) : Prop :=
  forall t, (t < rows2 s)%nat ->
    (forall v, (v < cols2 s)%nat -> 0 <= get2 s t v)
    /\ 0 < sum_upto (cols2 s) (get2 s t).

(** The contract of [torch.multinomial(s, 1)]: on such a matrix it
    returns, for every row, the index of one of the row's entries. *)
Definition multinomial_contract {RNG : Type}
    (multinomial : Tensor2 -> RNG -> option ((nat -> Z) * RNG)) : Prop :=
  forall s g,
    valid_dist s ->
    exists draw g',
      multinomial s g = Some (draw, g')
      /\ forall t, (t < rows2 s)%nat ->
           (0 <= draw t < Z.of_nat (cols2 s))%Z.

(** A probability tensor of shape (batch, length, vocab): entries are
    not negative and every row sums to 1. *)
Definition probability_tensor (probs : Tensor3) : Prop :=
  forall b t, (b < dim0 probs)%nat -> (t < dim1 probs)%nat ->
    (forall v, (v < dim2 probs)%nat -> 0 <= get3 probs b t v)
    /\ sum_upto (dim2 probs) (get3 probs b t) = 1.

(** The rows of the two buffers of [sample_3d] below row [i] hold a drawn
    index and the probability read at it. *)
Definition drawn (temp : Tensor3) (i : nat) (sample_idx sample_probs : Tensor2)
  : Prop :=
  forall a t, (a < i)%nat -> (t < dim1 temp)%nat ->
    exists z,
      (0 <= z < Z.of_nat (dim2 temp))%Z
      /\ get2 sample_idx a t = IZR z
      /\ get2 sample_probs a t = get3 temp a t (Z.to_nat z).

(** The first position of [x] in [s]. *)
Fixpoint first_index (x : Z) (s : list Z) : option nat :=
  match s with
  | [] => None
  | y :: tl => if (y =? x)%Z then Some O else option_map S (first_index x tl)
  end.

(** A sequence cut just before its first end-of-sequence token at a
    position [e] with [0 < e < i], and to its first [i - 1] positions
    otherwise. *)
Definition truncated_at_eos (eos : Z) (i : Z) (s : list Z) : list Z :=
  match first_index eos s with
  | Some e =>
      if ((0 <? e)%nat && (Z.of_nat e <? i)%Z)%bool then firstn e s
      else firstn (Z.to_nat (i - 1)) s
  | None => firstn (Z.to_nat (i - 1)) s
  end.

(** The positions [[1, i)] of a sequence. *)
Definition positions_from_one (i : Z) (t : list Z) : list Z :=
  skipn 1 (firstn (Z.to_nat i) t).

(** A sampler for the examples: it always draws index 0. *)
Definition draw_first (s : Tensor2) (g : unit) : option ((nat -> Z) * unit) :=
  Some (fun _ => 0%Z, g).

(** A collation and a classifier for the examples: one column of
    padding per sequence, and the same logits for both classes. *)
Definition collate_column (seqs : list (list Z)) : LongTensor2 :=
  mkL2 (length seqs) 1 (fun _ _ => 0%Z).

Definition cls_even (x : LongTensor2) : option Tensor2 :=
  Some (mkT2 (lrows x) 2 (fun _ _ => 0)).

(** The mask the loop of [cal_reward_loss] builds from any list of
    lengths, on a buffer of width [L]: rows beyond the list stay 0 and the
    stop of each slice follows Python's rules. *)
Definition loop_mask (L : nat) (idxs : list Z) (i j : nat) : R :=
  if ((i <? length idxs)%nat && (j <? Py.slice_stop L (nth i idxs 0%Z))%nat)%bool
  then 1 else 0.

(** * Properties *)

(** ** The model on small inputs *)

Example slice_negative_stop : Py.slice_to (-1) [7; 8; 9]%Z = [7; 8]%Z.
Proof. reflexivity. Qed.

Example slice_inner : Py.slice 1 2 [7; 8; 9]%Z = [8]%Z.
Proof. reflexivity. Qed.

Example positions_of_eos : positions_eq 2 [7; 2; 9; 2]%Z = [1; 3]%nat.
Proof. reflexivity. Qed.

Example sc_truncate_early_eos :
  sc_truncate 2 7 [7; 8; 9; 2; 2; 2; 2; 3]%Z = [7; 8; 9; 2; 2; 2]%Z.
Proof. reflexivity. Qed.

Example sc_truncate_late_eos :
  sc_truncate 2 7 [7; 8; 9; 5; 5; 2; 2; 3]%Z = [7; 8; 9; 5; 5]%Z.
Proof. reflexivity. Qed.

Example bigrams : Nltk.ngrams 2 [1; 2; 3]%Z = [[1; 2]; [2; 3]]%Z.
Proof. reflexivity. Qed.

Example clipped_unigrams :
  Nltk.modified_precision [[1; 2; 3]%Z] [1; 2; 4; 1]%Z 1 = (2, 4)%nat.
Proof. reflexivity. Qed.

Example no_fourgram :
  Nltk.modified_precision [[1; 2; 3]%Z] [1; 2; 4; 1]%Z 4 = (0, 1)%nat.
Proof. reflexivity. Qed.

(** ** Sums and broadcasting *)

Lemma sum_upto_ext (n : nat) (f g : nat -> R) :
  (forall i, (i < n)%nat -> f i = g i) -> sum_upto n f = sum_upto n g.
Proof.
  induction n as [|n IH]; intros H; simpl.
  - reflexivity.
  - rewrite IH by (intros i Hi; apply H; lia).
    rewrite (H n) by lia. reflexivity.
Qed.

Lemma sum_upto_scal (k : R) (n : nat) (f : nat -> R) :
  sum_upto n (fun i => k * f i) = k * sum_upto n f.
Proof.
  induction n as [|n IH]; simpl.
  - ring.
  - rewrite IH. ring.
Qed.

Lemma bidx_lt (size i : nat) : (i < size)%nat -> bidx size i = i.
Proof.
  unfold bidx. intros H.
  destruct (Nat.eqb_spec size 1); [lia | reflexivity].
Qed.

Lemma bdim_same (a : nat) : bdim a a = Some a.
Proof. unfold bdim. now rewrite Nat.eqb_refl. Qed.

Lemma bdim_one_r (a : nat) : bdim a 1 = Some a.
Proof.
  unfold bdim. destruct (Nat.eqb_spec a 1) as [->|]; [reflexivity|].
  reflexivity.
Qed.

(** ** The mask built by the loop *)

Lemma slice_stop_nonneg (n : nat) (l : Z) (j : nat) :
  (0 <= l)%Z -> (j < n)%nat ->
  (j <? Py.slice_stop n l)%nat = (Z.of_nat j <? l)%Z.
Proof.
  intros Hl Hj. unfold Py.slice_stop.
  destruct (Z.ltb_spec l 0); [lia|].
  destruct (Nat.ltb_spec j (Nat.min (Z.to_nat l) n));
    destruct (Z.ltb_spec (Z.of_nat j) l); try reflexivity; lia.
Qed.

Lemma fill_mask_from (idxs : list Z) :
  forall (k : nat) (mask : Tensor2),
    (k + length idxs <= rows2 mask)%nat ->
    exists mask',
      fill_mask (combine (seq k (length idxs)) idxs) mask = Some mask'
      /\ rows2 mask' = rows2 mask
      /\ cols2 mask' = cols2 mask
      /\ forall a b,
           get2 mask' a b =
           if ((k <=? a)%nat && (a <? k + length idxs)%nat
               && (b <? Py.slice_stop (cols2 mask) (nth (a - k) idxs 0%Z))%nat)%bool
           then 1 else get2 mask a b.
Proof.
  induction idxs as [|l idxs IH]; intros k mask Hk.
  - exists mask. repeat split; try reflexivity.
    intros a b. cbn [length].
    destruct (Nat.leb_spec k a); destruct (Nat.ltb_spec a (k + 0));
      cbn [andb]; try reflexivity; lia.
  - cbn [length seq combine fill_mask] in *. unfold set_row_prefix.
    destruct (Nat.ltb_spec k (rows2 mask)) as [_|]; [|lia]. cbn [bind].
    match goal with
    | |- context [fill_mask _ ?m] =>
        destruct (IH (S k) m) as (m' & E & Hr & Hc & Hg)
    end; [cbn [rows2]; lia|].
    cbn [rows2 cols2 get2] in *.
    exists m'. repeat split; try assumption.
    intros a b. rewrite Hg.
    destruct (Nat.eqb_spec a k) as [->|Hak].
    + replace (k - k)%nat with O by lia. cbn [nth].
      destruct (Nat.leb_spec (S k) k); [lia|].
      destruct (Nat.leb_spec k k); [|lia].
      destruct (Nat.ltb_spec k (k + S (length idxs))); [|lia].
      reflexivity.
    + cbn [andb].
      destruct (Nat.leb_spec (S k) a); destruct (Nat.leb_spec k a);
        try lia; cbn [andb]; try reflexivity.
      replace (a - k)%nat with (S (a - S k)) by lia.
      replace (k + S (length idxs))%nat with (S k + length idxs)%nat by lia.
      reflexivity.
Qed.

Lemma fill_mask_lengths (idxs : list Z) (B L : nat) :
  length idxs = B ->
  Forall (fun l => (0 <= l)%Z) idxs ->
  exists mask,
    fill_mask (Py.enumerate idxs) (zeros B L) = Some mask
    /\ rows2 mask = B /\ cols2 mask = L
    /\ forall i j, (i < B)%nat -> (j < L)%nat ->
         get2 mask i j = length_mask idxs i j.
Proof.
  intros Hlen Hpos.
  destruct (fill_mask_from idxs 0 (zeros B L)) as (m & E & Hr & Hc & Hg);
    [simpl; lia|].
  exists m. repeat split; try assumption.
  intros i j Hi Hj. rewrite Hg. simpl.
  destruct (Nat.ltb_spec i (length idxs)); [|lia]. simpl.
  rewrite Nat.sub_0_r.
  rewrite slice_stop_nonneg; try assumption.
  - reflexivity.
  - rewrite Forall_forall in Hpos. apply Hpos. apply nth_In. lia.
Qed.

(** ** [cal_reward_loss] *)

(** C1. With a list of sequence lengths (one per row of the batch, none
    negative), [cal_reward_loss] is the mean over the batch of
    (sum over positions of -log(p) * reward * mask) / (sum of mask), where
    the mask is 1 exactly at the positions below the length; without
    lengths, it is the mean of -log(p) * reward over all batch * length
    entries. *)
Theorem cal_reward_loss_formula
    (sample_probs : Tensor2) (reward : Tensor1) (idxs : list Z) :
  len1 reward = rows2 sample_probs ->
  length idxs = rows2 sample_probs ->
  Forall (fun l => (0 <= l)%Z) idxs ->
  cal_reward_loss sample_probs reward (Some idxs)
    = Some (masked_mean_loss sample_probs reward idxs)
  /\ cal_reward_loss sample_probs reward None
    = Some (plain_mean_loss sample_probs reward).
Proof.
  intros Hrew Hlen Hpos.
  destruct sample_probs as [B L p]. destruct reward as [n r].
  cbn [rows2 cols2 len1] in *. subst n.
  split.
  - unfold cal_reward_loss. cbn [rows2 cols2].
    destruct (fill_mask_lengths idxs B L Hlen Hpos) as (m & E & Hr & Hc & Hg).
    rewrite E. cbn [bind].
    destruct m as [mr mc mg]. cbn [rows2 cols2 get2] in *. subst mr mc.
    unfold mul, neg, log, unsqueeze1. cbn [rows2 cols2 len1 get1 get2].
    rewrite bdim_same, bdim_one_r. cbn [bind rows2 cols2].
    rewrite !bdim_same. cbn [bind].
    unfold div1, sum_last. cbn [len1 rows2 cols2 get1 get2].
    rewrite bdim_same. cbn [bind].
    f_equal. unfold mean1, masked_mean_loss. cbn [len1 get1 rows2 cols2 get2].
    f_equal. apply sum_upto_ext. intros i Hi.
    unfold bget1. cbn [len1 get1]. rewrite (bidx_lt B i Hi).
    f_equal.
    + apply sum_upto_ext. intros j Hj.
      unfold bget2. cbn [rows2 cols2 get2].
      rewrite !(bidx_lt B i Hi), !(bidx_lt L j Hj), Hg by assumption.
      reflexivity.
    + apply sum_upto_ext. intros j Hj. apply Hg; assumption.
  - unfold cal_reward_loss, mul, neg, log, unsqueeze1.
    cbn [rows2 cols2 len1 get1 get2].
    rewrite bdim_same, bdim_one_r. cbn [bind].
    f_equal. unfold mean2, plain_mean_loss. cbn [rows2 cols2 get2].
    f_equal. apply sum_upto_ext. intros i Hi.
    apply sum_upto_ext. intros j Hj.
    unfold bget2. cbn [rows2 cols2 get2].
    rewrite !(bidx_lt B i Hi), !(bidx_lt L j Hj). reflexivity.
Qed.

Lemma cal_reward_loss_formula_witness :
  let sample_probs := mkT2 2 2 (fun _ _ => 1 / 2) in
  let reward := mkT1 2 (fun _ => 1) in
  let idxs := [1%Z; 2%Z] in
  cal_reward_loss sample_probs reward (Some idxs)
    = Some (masked_mean_loss sample_probs reward idxs)
  /\ cal_reward_loss sample_probs reward None
    = Some (plain_mean_loss sample_probs reward).
Proof.
  intros sample_probs reward idxs.
  apply (cal_reward_loss_formula sample_probs reward idxs).
  - reflexivity.
  - reflexivity.
  - repeat constructor; lia.
Defined.

Ltac split_bdims :=
  repeat match goal with
    | |- context [bind (bdim ?a ?b) _] =>
        destruct (bdim a b); cbn [bind option_map rows2 cols2 len1];
        try reflexivity
    end.

(** C8. [cal_reward_loss] is homogeneous in the reward: scaling the
    reward by [k] scales the loss by [k], with or without lengths (and it
    raises for the scaled reward exactly when it raises for the reward). *)
Theorem cal_reward_loss_linear
    (sample_probs : Tensor2) (reward : Tensor1) (idxs : option (list Z))
    (k : R) :
  cal_reward_loss sample_probs (scale1 k reward) idxs
  = option_map (Rmult k) (cal_reward_loss sample_probs reward idxs).
Proof.
  unfold cal_reward_loss. destruct idxs as [idxs|].
  - destruct (fill_mask _ _) as [mask|]; cbn [bind option_map];
      [|reflexivity].
    unfold mul, div1, sum_last, unsqueeze1, scale1, neg, log.
    cbn [rows2 cols2 len1 get1 get2].
    split_bdims. f_equal. unfold mean1. cbn [len1 get1].
    unfold Rdiv at 1 3. rewrite <- Rmult_assoc, <- sum_upto_scal.
    f_equal. apply sum_upto_ext. intros i _.
    unfold bget1. cbn [len1 get1].
    unfold Rdiv. rewrite <- Rmult_assoc, <- sum_upto_scal.
    f_equal. apply sum_upto_ext. intros j _.
    unfold bget2. cbn [rows2 cols2 get2]. ring.
  - unfold mul, unsqueeze1, scale1, neg, log.
    cbn [rows2 cols2 len1 get1 get2].
    split_bdims.
    f_equal. unfold mean2. cbn [rows2 cols2 get2].
    unfold Rdiv. rewrite <- Rmult_assoc, <- sum_upto_scal.
    f_equal. apply sum_upto_ext. intros i _.
    rewrite <- sum_upto_scal. apply sum_upto_ext. intros j _.
    unfold bget2. cbn [rows2 cols2 get2]. ring.
Qed.

(** ** [make_padding_mask] *)

Lemma any_eq_iff (pad : Z) (data : list Z) :
  existsb (fun b => b) (map (fun v => (v =? pad)%Z) data) = true
  <-> In pad data.
Proof.
  rewrite existsb_exists. split.
  - intros (b & Hin & Hb). subst b. apply in_map_iff in Hin.
    destruct Hin as (v & Hv & Hin). apply Z.eqb_eq in Hv. now subst v.
  - intros Hin. exists true. split; [|reflexivity].
    apply in_map_iff. exists pad. split; [apply Z.eqb_refl | assumption].
Qed.

Lemma alloc_fresh (v : Store.tensor) (st : Store.store) :
  nth_error (snd (Store.alloc v st)) (fst (Store.alloc v st)) = Some v.
Proof.
  unfold Store.alloc. cbn [fst snd].
  rewrite nth_error_app2 by lia. now rewrite Nat.sub_diag.
Qed.

Lemma alloc_keeps (v w : Store.tensor) (st : Store.store) (a : Store.addr) :
  nth_error st a = Some w ->
  nth_error (snd (Store.alloc v st)) a = Some w.
Proof.
  intros H. unfold Store.alloc. cbn [snd].
  rewrite nth_error_app1; [assumption|].
  apply nth_error_Some. congruence.
Qed.

(** C7. On an id tensor, [make_padding_mask] returns [None] exactly when
    no entry equals the pad id; otherwise it returns a boolean tensor of
    the same shape that is true exactly at the entries equal to the pad
    id. The input tensor (and every other tensor of the store) is left as
    it was. *)
Theorem make_padding_mask_spec
    (st : Store.store) (input_ids : Store.addr) (shape : list nat)
    (data : list Z) (padding_idx : Z) :
  nth_error st input_ids = Some (Store.Long shape data) ->
  exists res st',
    make_padding_mask input_ids padding_idx st = Some (res, st')
    /\ nth_error st' input_ids = Some (Store.Long shape data)
    /\ (forall a v, nth_error st a = Some v -> nth_error st' a = Some v)
    /\ (res = None <-> ~ In padding_idx data)
    /\ (forall m, res = Some m ->
          exists mask,
            nth_error st' m = Some (Store.Bool shape mask)
            /\ length mask = length data
            /\ forall k, (k < length data)%nat ->
                 (nth k mask false = true <-> nth k data 0%Z = padding_idx)).
Proof.
  intros Hin.
  unfold make_padding_mask, Store.eq. rewrite Hin. cbn [bind].
  set (mask := map (fun v => (v =? padding_idx)%Z) data).
  set (cell := Store.Bool shape mask).
  pose proof (alloc_fresh cell st) as Hfresh.
  pose proof (fun a v => alloc_keeps cell v st a) as Hkeep.
  destruct (Store.alloc cell st) as [m st1]. cbn [fst snd] in Hfresh, Hkeep.
  unfold Store.any. rewrite Hfresh. cbn [bind].
  eexists. eexists. split; [reflexivity|].
  split; [now apply Hkeep|].
  split; [exact Hkeep|].
  pose proof (any_eq_iff padding_idx data) as Hany. fold mask in Hany.
  split.
  - destruct (existsb (fun b => b) mask); cbn [negb]; split; intros H.
    + discriminate.
    + exfalso. apply H. now apply Hany.
    + intros Hp. apply Hany in Hp. discriminate.
    + reflexivity.
  - intros m' Hm. exists mask.
    destruct (existsb (fun b => b) mask); cbn [negb] in Hm; [|discriminate].
    injection Hm as <-.
    split; [exact Hfresh|].
    split; [apply length_map|].
    intros k Hk. unfold mask.
    rewrite (nth_indep _ false ((0 =? padding_idx)%Z))
      by (rewrite length_map; exact Hk).
    rewrite (map_nth (fun v => (v =? padding_idx)%Z)).
    apply Z.eqb_eq.
Qed.

Lemma make_padding_mask_spec_witness :
  exists res st',
    make_padding_mask O 1%Z [Store.Long [1; 3]%nat [5%Z; 1%Z; 1%Z]]
      = Some (res, st')
    /\ nth_error st' O = Some (Store.Long [1; 3]%nat [5%Z; 1%Z; 1%Z])
    /\ (forall a v,
          nth_error [Store.Long [1; 3]%nat [5%Z; 1%Z; 1%Z]] a = Some v ->
          nth_error st' a = Some v)
    /\ (res = None <-> ~ In 1%Z [5%Z; 1%Z; 1%Z])
    /\ (forall m, res = Some m ->
          exists mask,
            nth_error st' m = Some (Store.Bool [1; 3]%nat mask)
            /\ length mask = length [5%Z; 1%Z; 1%Z]
            /\ forall k, (k < length [5%Z; 1%Z; 1%Z])%nat ->
                 (nth k mask false = true
                  <-> nth k [5%Z; 1%Z; 1%Z] 0%Z = 1%Z)).
Proof.
  apply (make_padding_mask_spec
           [Store.Long [1; 3]%nat [5%Z; 1%Z; 1%Z]] O [1; 3]%nat
           [5%Z; 1%Z; 1%Z] 1%Z).
  reflexivity.
Defined.

(** ** [evaluate] and [evaluate_sc] *)

Lemma eval_loop_keeps_mode {W Batch : Type}
    (eval_batch : Batch -> World W -> outcome (World W) (R * nat * nat)) :
  (forall b v, training (final_state (eval_batch b v)) = training v) ->
  forall loader n a l w,
    training (final_state (eval_loop W Batch eval_batch loader n a l w))
    = training w.
Proof.
  intros Hkeep. induction loader as [|b more IH]; intros n a l w.
  - reflexivity.
  - cbn [eval_loop]. specialize (Hkeep b w).
    destruct (eval_batch b w) as [[[loss correct] count] w'|e w'];
      cbn [final_state] in *.
    + rewrite IH. exact Hkeep.
    + exact Hkeep.
Qed.

(** C3, as the code has it. When the loop runs to its end, [evaluate] and
    [evaluate_sc] leave the model in training mode (also when the summary
    line then divides by zero). When the loop body raises, the exception
    propagates from both and [model.train()] is not run: the model is left
    in the mode the loop left it in, which is evaluation mode unless the
    body switched it itself. *)
Theorem evaluate_training_mode {W Batch : Type}
    (eval_batch : Batch -> World W -> outcome (World W) (R * nat * nat))
    (valid_loader : list Batch) (w : World W) :
  match eval_loop W Batch eval_batch valid_loader 0 0 0
          (mkWorld false false (rest w)) with
  | Return _ _ =>
      training (final_state (evaluate eval_batch valid_loader w)) = true
      /\ training (final_state (evaluate_sc eval_batch valid_loader w)) = true
  | Raise e w' =>
      let left := mkWorld (training w') (grad_enabled w) (rest w') in
      evaluate eval_batch valid_loader w = Raise e left
      /\ evaluate_sc eval_batch valid_loader w = Raise e left
      /\ ((forall b v, training (final_state (eval_batch b v)) = training v) ->
          training left = false)
  end.
Proof.
  pose proof (eval_loop_keeps_mode eval_batch) as Hmode.
  unfold evaluate, evaluate_sc, with_no_grad, model_eval.
  cbn [training grad_enabled rest].
  destruct (eval_loop W Batch eval_batch valid_loader 0 0 0
              (mkWorld false false (rest w)))
    as [[[total_num total_acc] total_loss] w'|e w'] eqn:E.
  - split.
    + destruct ((length valid_loader =? 0)%nat || (total_num =? 0)%nat)%bool;
        reflexivity.
    + destruct (total_num =? 0)%nat; reflexivity.
  - cbn zeta. repeat split.
    intros Hkeep. cbn [training].
    specialize (Hmode Hkeep valid_loader O O 0 (mkWorld false false (rest w))).
    rewrite E in Hmode. exact Hmode.
Qed.

(** C3, as the specification states it, fails: a loop body that raises
    on the first batch (as the lookup of an unbound global does) leaves
    the model in evaluation mode. *)
Lemma evaluate_raise_stays_in_eval_mode :
  training
    (final_state
       (evaluate (fun (_ : unit) (w : World unit) => Raise NameError w)
          [tt] (mkWorld true true tt))) = false
  /\ training
    (final_state
       (evaluate_sc (fun (_ : unit) (w : World unit) => Raise NameError w)
          [tt] (mkWorld true true tt))) = false.
Proof. split; reflexivity. Qed.

(** ** BLEU rewards *)

Lemma ngrams_one (s : list Z) : Nltk.ngrams 1 s = map (fun x => [x]) s.
Proof.
  induction s as [|a tl IH].
  - reflexivity.
  - cbn [Nltk.ngrams length]. cbn [Nat.leb firstn map]. now rewrite IH.
Qed.

Lemma list_sum_zero (l : list nat) :
  list_sum l = O <-> forall x, In x l -> x = O.
Proof.
  induction l as [|a l IH]; simpl.
  - split; [intros _ x []| reflexivity].
  - split.
    + intros H x [<-|Hx]; [lia|]. apply IH; [lia | assumption].
    + intros H. rewrite (H a) by now left.
      apply IH. intros x Hx. apply H. now right.
Qed.

Lemma unigram_matches (ref hyp : list Z) :
  fst (Nltk.modified_precision [ref] hyp 1) <> O <-> share_token hyp ref.
Proof.
  unfold Nltk.modified_precision, Nltk.max_count, Nltk.count.
  cbn [fst fold_left]. rewrite !ngrams_one. cbn [Nat.max].
  rewrite list_sum_zero. split.
  - intros H.
    destruct (existsb (fun x => existsb (Z.eqb x) ref) hyp) eqn:E.
    + apply existsb_exists in E. destruct E as (x & Hx & E).
      apply existsb_exists in E. destruct E as (y & Hy & E).
      apply Z.eqb_eq in E. subst y. now exists x.
    + exfalso. apply H. intros n Hn.
      apply in_map_iff in Hn. destruct Hn as (g & <- & Hg).
      apply nodup_In in Hg. apply in_map_iff in Hg.
      destruct Hg as (x & <- & Hx).
      assert (Hnot : ~ In [x] (map (fun y => [y]) ref)).
      { intros Hin. apply in_map_iff in Hin. destruct Hin as (y & Hy & Hin).
        injection Hy as ->.
        assert (existsb (fun x => existsb (Z.eqb x) ref) hyp = true);
          [|congruence].
        apply existsb_exists. exists x. split; [assumption|].
        apply existsb_exists. exists x. split; [assumption|apply Z.eqb_refl]. }
      apply (count_occ_not_In Nltk.ngram_eq_dec) in Hnot.
      rewrite Hnot. apply Nat.min_0_r.
  - intros (x & Hh & Hr) H.
    assert (Hg : In [x] (map (fun y => [y]) hyp))
      by exact (in_map (fun y => [y]) hyp x Hh).
    assert (Hg' : In [x] (map (fun y => [y]) ref))
      by exact (in_map (fun y => [y]) ref x Hr).
    specialize (H (Nat.min
                     (count_occ Nltk.ngram_eq_dec (map (fun y => [y]) hyp) [x])
                     (count_occ Nltk.ngram_eq_dec (map (fun y => [y]) ref) [x]))).
    apply (count_occ_In Nltk.ngram_eq_dec) in Hg'.
    pose proof Hg as Hc. apply (count_occ_In Nltk.ngram_eq_dec) in Hc.
    assert (Hmin : Nat.min
                     (count_occ Nltk.ngram_eq_dec (map (fun y => [y]) hyp) [x])
                     (count_occ Nltk.ngram_eq_dec (map (fun y => [y]) ref) [x])
                   = O).
    { apply H. apply in_map_iff. exists [x]. split; [reflexivity|].
      now apply nodup_In. }
    lia.
Qed.

Lemma brevity_penalty_pos (ref_len hyp_len : nat) :
  hyp_len <> O -> 0 < Nltk.brevity_penalty ref_len hyp_len.
Proof.
  intros H. unfold Nltk.brevity_penalty.
  destruct (ref_len <? hyp_len)%nat; [lra|].
  destruct (Nat.eqb_spec hyp_len 0); [contradiction|apply exp_pos].
Qed.

(** The score of one pair: defined for every pair, never negative, and
    positive exactly when the two sequences share a token. *)
Lemma sentence_bleu_sign (ref hyp : list Z) :
  exists b,
    Nltk.sentence_bleu [ref] hyp = Some b
    /\ 0 <= b
    /\ (0 < b <-> share_token hyp ref)
    /\ (b = 0 <-> ~ share_token hyp ref).
Proof.
  unfold Nltk.sentence_bleu, Nltk.closest_ref_length.
  cbn [map fold_left bind Nltk.weights length seq nth].
  pose proof (unigram_matches ref hyp) as Hm.
  destruct (Nat.eqb_spec (fst (Nltk.modified_precision [ref] hyp 1)) 0)
    as [E|E].
  - eexists. split; [reflexivity|].
    assert (Hno : ~ share_token hyp ref) by (intros Hs; apply Hm in Hs; lia).
    split; [lra|]. split; split.
    + intros H. lra.
    + intros Hs. contradiction.
    + intros _. exact Hno.
    + reflexivity.
  - eexists. split; [reflexivity|].
    assert (Hs : share_token hyp ref) by now apply Hm.
    match goal with
    | |- 0 <= ?v /\ _ => assert (Hpos : 0 < v); [|generalize dependent v]
    end.
    { apply Rmult_lt_0_compat; [|apply exp_pos].
      apply brevity_penalty_pos.
      destruct Hs as (x & Hx & _). destruct hyp; [destruct Hx|discriminate]. }
    intros v Hpos. split; [lra|]. split; split.
    + intros _. exact Hs.
    + intros _. exact Hpos.
    + intros H. lra.
    + intros Hn. contradiction.
Qed.

Lemma bleu_each_combine (inp : list (list Z)) :
  forall tgt : list (list Z),
  exists bleus,
    bleu_each (combine inp tgt) = Some bleus
    /\ length bleus = Nat.min (length inp) (length tgt)
    /\ forall i, (i < length bleus)%nat ->
         Nltk.sentence_bleu [nth i tgt []] (nth i inp []) = Some (nth i bleus 0).
Proof.
  induction inp as [|hyp inp IH]; intros [|ref tgt]; cbn [combine bleu_each].
  - exists []. repeat split. cbn [length]. intros i Hi. lia.
  - exists []. repeat split. cbn [length]. intros i Hi. lia.
  - exists []. repeat split. cbn [length]. intros i Hi. lia.
  - destruct (sentence_bleu_sign ref hyp) as (b & Eb & _).
    destruct (IH tgt) as (bs & Ebs & Hlen & Hnth).
    rewrite Eb, Ebs. cbn [bind].
    exists (b :: bs). split; [reflexivity|]. cbn [length]. split; [lia|].
    intros [|i] Hi; cbn [nth]; [exact Eb|]. apply Hnth. lia.
Qed.

Lemma cal_bl_reward_zero_aux (hyp ref : list Z) :
  ~ share_token hyp ref ->
  exists bleus,
    cal_bl_reward [hyp] [ref] = Some bleus /\ get1 bleus O = 0.
Proof.
  intros Hno.
  destruct (sentence_bleu_sign ref hyp) as (b & Eb & _ & _ & Hz).
  unfold cal_bl_reward. cbn [combine bleu_each]. rewrite Eb. cbn [bind].
  eexists. split; [reflexivity|]. cbn [FloatTensor get1 nth].
  now apply Hz.
Qed.

(** C10. On lists of unequal lengths [cal_bl_reward] does not raise: it
    returns one score per pair of the shorter length, the scores of the
    leading pairs, and ignores the surplus of the longer list. *)
Theorem cal_bl_reward_unequal_lengths (inp tgt : list (list Z)) :
  exists bleus,
    cal_bl_reward inp tgt = Some bleus
    /\ len1 bleus = Nat.min (length inp) (length tgt)
    /\ forall i, (i < Nat.min (length inp) (length tgt))%nat ->
         Nltk.sentence_bleu [nth i tgt []] (nth i inp []) = Some (get1 bleus i).
Proof.
  destruct (bleu_each_combine inp tgt) as (bs & E & Hlen & Hnth).
  unfold cal_bl_reward. rewrite E. cbn [bind].
  exists (FloatTensor bs). split; [reflexivity|].
  unfold FloatTensor. cbn [len1 get1]. split; [exact Hlen|].
  intros i Hi. apply Hnth. lia.
Qed.

(** C9, as the code has it. Every score is defined and not negative. It
    is positive exactly when hypothesis and reference share a token;
    without a shared token it is exactly 0, because the score is returned
    as 0 when no unigram matches, before the smoothing is applied. *)
Theorem cal_bl_reward_sign (inp tgt : list (list Z)) :
  length inp = length tgt ->
  exists bleus,
    cal_bl_reward inp tgt = Some bleus
    /\ len1 bleus = length inp
    /\ forall i, (i < length inp)%nat ->
         0 <= get1 bleus i
         /\ (0 < get1 bleus i <-> share_token (nth i inp []) (nth i tgt []))
         /\ (get1 bleus i = 0 <-> ~ share_token (nth i inp []) (nth i tgt [])).
Proof.
  intros Hlen.
  destruct (bleu_each_combine inp tgt) as (bs & E & Hbs & Hnth).
  unfold cal_bl_reward. rewrite E. cbn [bind].
  exists (FloatTensor bs). split; [reflexivity|].
  unfold FloatTensor. cbn [len1 get1]. split; [lia|].
  intros i Hi.
  destruct (sentence_bleu_sign (nth i tgt []) (nth i inp []))
    as (b & Eb & Hb).
  rewrite Hnth in Eb by lia. injection Eb as <-. exact Hb.
Qed.

Lemma cal_bl_reward_sign_witness :
  exists bleus,
    cal_bl_reward [[1%Z; 2%Z]] [[1%Z; 3%Z]] = Some bleus
    /\ len1 bleus = length [[1%Z; 2%Z]]
    /\ forall i, (i < length [[1%Z; 2%Z]])%nat ->
         0 <= get1 bleus i
         /\ (0 < get1 bleus i
             <-> share_token (nth i [[1%Z; 2%Z]] []) (nth i [[1%Z; 3%Z]] []))
         /\ (get1 bleus i = 0
             <-> ~ share_token (nth i [[1%Z; 2%Z]] []) (nth i [[1%Z; 3%Z]] [])).
Proof.
  apply (cal_bl_reward_sign [[1%Z; 2%Z]] [[1%Z; 3%Z]]). reflexivity.
Defined.

(** C9, as the specification states it, fails: a hypothesis and a
    reference without a common token score exactly 0. *)
Lemma cal_bl_reward_disjoint_zero :
  option_map (fun bleus => get1 bleus O) (cal_bl_reward [[1%Z]] [[2%Z]])
  = Some 0.
Proof.
  destruct (cal_bl_reward_zero_aux [1%Z] [2%Z]) as (t & E & H).
  - intros (x & [<-|[]] & [Hx|[]]). discriminate.
  - rewrite E. cbn [option_map]. now rewrite H.
Qed.

(** ** [sample_3d] *)

Lemma trunc_IZR (z : Z) : trunc (IZR z) = z.
Proof.
  unfold trunc. destruct (Rle_dec 0 (IZR z)) as [_|_].
  - symmetry. apply Int_part_spec. lra.
  - rewrite <- opp_IZR.
    rewrite <- (Int_part_spec (IZR (- z)) (- z)) by lra. lia.
Qed.

Lemma gather1_drawn (s : Tensor2) (draw : nat -> Z) :
  (forall t, (t < rows2 s)%nat -> (0 <= draw t < Z.of_nat (cols2 s))%Z) ->
  gather1 s (mkL2 (rows2 s) 1 (fun t _ => draw t))
  = Some (mkT2 (rows2 s) 1 (fun t _ => get2 s t (Z.to_nat (draw t)))).
Proof.
  intros Hd. unfold gather1. cbn [lrows lcols lget].
  rewrite Nat.leb_refl. cbn [andb].
  replace (forallb _ (seq 0 (rows2 s))) with true; [reflexivity|].
  symmetry. apply forallb_forall. intros t Ht. apply in_seq in Ht.
  cbn [seq forallb]. rewrite andb_true_r.
  apply andb_true_intro. split; [apply Z.leb_le | apply Z.ltb_lt];
    apply Hd; lia.
Qed.

Lemma sample_rows_drawn {RNG : Type}
    (multinomial : Tensor2 -> RNG -> option ((nat -> Z) * RNG))
    (temp : Tensor3) :
  multinomial_contract multinomial ->
  (forall b, (b < dim0 temp)%nat -> valid_dist (slice0 temp b)) ->
  forall todo i sample_idx sample_probs g,
    (i + todo = dim0 temp)%nat ->
    rows2 sample_idx = dim0 temp -> cols2 sample_idx = dim1 temp ->
    rows2 sample_probs = dim0 temp -> cols2 sample_probs = dim1 temp ->
    drawn temp i sample_idx sample_probs ->
    exists sample_idx' sample_probs' g',
      sample_rows multinomial temp todo i sample_idx sample_probs g
        = Some (sample_idx', sample_probs', g')
      /\ rows2 sample_idx' = dim0 temp /\ cols2 sample_idx' = dim1 temp
      /\ rows2 sample_probs' = dim0 temp /\ cols2 sample_probs' = dim1 temp
      /\ drawn temp (dim0 temp) sample_idx' sample_probs'.
Proof.
  intros Hmul Hvalid.
  induction todo as [|todo IH];
    intros i sidx sprobs g Hi Hr1 Hc1 Hr2 Hc2 Hinv.
  - cbn [sample_rows]. exists sidx, sprobs, g.
    replace (dim0 temp) with i by lia. repeat split; try assumption; lia.
  - cbn [sample_rows].
    destruct (Hmul (slice0 temp i) g) as (draw & g' & Em & Hdraw);
      [apply Hvalid; lia|].
    rewrite Em. cbn [bind].
    rewrite (gather1_drawn (slice0 temp i) draw Hdraw). cbn [bind].
    unfold squeeze1, lsqueeze1, to_float, set_row.
    cbn [rows2 cols2 lrows lcols lget llen lget1 len1 get1 get2 slice0].
    rewrite Nat.eqb_refl. cbn [bind llen lget1 len1 get1].
    rewrite Hr1, Hc1, Hr2, Hc2.
    destruct (Nat.ltb_spec i (dim0 temp)) as [Hlt|]; [|lia].
    rewrite Nat.eqb_refl. cbn [andb orb bind].
    apply IH; cbn [rows2 cols2 get2]; try assumption; try lia.
    intros a t Ha Ht. cbn [get2].
    destruct (Nat.eqb_spec a i) as [->|Hne].
    + exists (draw t). unfold bget1. cbn [len1 get1].
      rewrite (bidx_lt _ _ Ht).
      split; [apply (Hdraw t); exact Ht|]. split; reflexivity.
    + apply Hinv; [lia | exact Ht].
Qed.

(** C2. On a probability tensor of shape (batch, length, vocab), and with
    [torch.multinomial] behaving as documented, [sample_3d] at temperature
    1 returns a probability tensor and an index tensor, both of shape
    (batch, length); every index lies in [[0, vocab)] and every returned
    probability is the input probability at the sampled index. *)
Theorem sample_3d_spec {RNG : Type}
    (multinomial : Tensor2 -> RNG -> option ((nat -> Z) * RNG))
    (probs : Tensor3) (g : RNG) :
  multinomial_contract multinomial ->
  probability_tensor probs ->
  exists sample_probs sample_idx g',
    sample_3d multinomial probs 1 g = Some (sample_probs, sample_idx, g')
    /\ rows2 sample_probs = dim0 probs /\ cols2 sample_probs = dim1 probs
    /\ lrows sample_idx = dim0 probs /\ lcols sample_idx = dim1 probs
    /\ forall b t, (b < dim0 probs)%nat -> (t < dim1 probs)%nat ->
         (0 <= lget sample_idx b t < Z.of_nat (dim2 probs))%Z
         /\ get2 sample_probs b t
            = get3 probs b t (Z.to_nat (lget sample_idx b t)).
Proof.
  intros Hmul Hprob. unfold sample_3d.
  destruct (Req_EM_T 1 1) as [_|Hne]; [|contradiction].
  destruct (sample_rows_drawn multinomial probs Hmul) with
    (todo := dim0 probs) (i := O)
    (sample_idx := zeros (dim0 probs) (dim1 probs))
    (sample_probs := zeros (dim0 probs) (dim1 probs)) (g := g)
    as (sidx & sprobs & g' & E & Hr1 & Hc1 & Hr2 & Hc2 & Hd);
    try reflexivity.
  - intros b Hb t Ht. cbn [slice0 rows2 cols2 get2] in *.
    destruct (Hprob b t Hb Ht) as [Hpos Hsum]. split; [exact Hpos|].
    rewrite Hsum. lra.
  - intros a t Ha. lia.
  - rewrite E. cbn [bind].
    exists sprobs, (long sidx), g'. split; [reflexivity|].
    cbn [long lrows lcols lget]. repeat split; try assumption.
    + destruct (Hd b t H H0) as (z & Hz & Ei & _).
      rewrite Ei, trunc_IZR. lia.
    + destruct (Hd b t H H0) as (z & Hz & Ei & _).
      rewrite Ei, trunc_IZR. lia.
    + destruct (Hd b t H H0) as (z & Hz & Ei & Ep).
      rewrite Ei, trunc_IZR. exact Ep.
Qed.

Lemma draw_first_contract : multinomial_contract draw_first.
Proof.
  intros s g Hvalid. exists (fun _ => 0%Z), g. split; [reflexivity|].
  intros t Ht. destruct (Hvalid t Ht) as [_ Hsum].
  destruct (cols2 s) as [|n]; [cbn [sum_upto] in Hsum; lra | lia].
Qed.

Lemma sample_3d_spec_witness :
  exists sample_probs sample_idx g',
    sample_3d draw_first (mkT3 1 1 1 (fun _ _ _ => 1)) 1 tt
      = Some (sample_probs, sample_idx, g')
    /\ rows2 sample_probs = 1%nat /\ cols2 sample_probs = 1%nat
    /\ lrows sample_idx = 1%nat /\ lcols sample_idx = 1%nat
    /\ forall b t, (b < 1)%nat -> (t < 1)%nat ->
         (0 <= lget sample_idx b t < Z.of_nat 1)%Z
         /\ get2 sample_probs b t = 1.
Proof.
  apply (sample_3d_spec draw_first (mkT3 1 1 1 (fun _ _ _ => 1)) tt).
  - exact draw_first_contract.
  - intros b t Hb Ht. cbn [dim2 get3 sum_upto]. split; [intros; lra | lra].
Defined.

(** ** Truncation in [cal_bl_loss] *)

Lemma positions_eq_from (x : Z) (s : list Z) :
  forall k,
    hd_error (map fst (filter (fun p : nat * Z => (snd p =? x)%Z)
                         (combine (seq k (length s)) s)))
    = option_map (Nat.add k) (first_index x s).
Proof.
  induction s as [|y tl IH]; intros k.
  - reflexivity.
  - cbn [length seq combine filter first_index snd].
    destruct (y =? x)%Z.
    + cbn [map hd_error fst option_map]. f_equal. lia.
    + rewrite IH. destruct (first_index x tl); cbn [option_map];
        [f_equal; lia | reflexivity].
Qed.

Lemma positions_eq_head (x : Z) (s : list Z) :
  hd_error (positions_eq x s) = first_index x s.
Proof.
  unfold positions_eq, Py.enumerate. rewrite positions_eq_from.
  destruct (first_index x s); reflexivity.
Qed.

Lemma firstn_min_length {A : Type} (k : nat) (s : list A) :
  firstn (Nat.min k (length s)) s = firstn k s.
Proof.
  destruct (Nat.le_gt_cases k (length s)) as [H|H].
  - now rewrite Nat.min_l.
  - rewrite Nat.min_r by lia.
    rewrite firstn_all. symmetry. apply firstn_all2. lia.
Qed.

Lemma slice_to_nonneg {A : Type} (e : Z) (s : list A) :
  (0 <= e)%Z -> Py.slice_to e s = firstn (Z.to_nat e) s.
Proof.
  intros He. unfold Py.slice_to, Py.slice_stop.
  destruct (Z.ltb_spec e 0); [lia|]. apply firstn_min_length.
Qed.

Lemma bl_end_cut (eos i : Z) (s : list Z) :
  (1 <= i)%Z ->
  Py.slice_to (bl_end eos i s) s = truncated_at_eos eos i s.
Proof.
  intros Hi. unfold bl_end, truncated_at_eos.
  rewrite <- (positions_eq_head eos s).
  destruct (positions_eq eos s) as [|e0 rest]; cbn [hd_error].
  - apply slice_to_nonneg. lia.
  - replace (0 <? Z.of_nat e0)%Z with (0 <? e0)%nat
      by (destruct (Nat.ltb_spec 0 e0); destruct (Z.ltb_spec 0 (Z.of_nat e0));
          try reflexivity; lia).
    destruct ((0 <? e0)%nat && (Z.of_nat e0 <? i)%Z)%bool.
    + rewrite slice_to_nonneg by lia. now rewrite Nat2Z.id.
    + apply slice_to_nonneg. lia.
Qed.

Lemma slice_from_one (i : Z) (t : list Z) :
  (0 <= i)%Z -> Py.slice 1 i t = positions_from_one i t.
Proof.
  intros Hi. unfold Py.slice, Py.slice_start, Py.slice_stop, positions_from_one.
  destruct (Z.ltb_spec 1 0); [lia|]. destruct (Z.ltb_spec i 0); [lia|].
  rewrite firstn_min_length.
  destruct t as [|a t]; [now rewrite firstn_nil|].
  reflexivity.
Qed.

(** C4. For a row of target length [i] (at least 1: the target holds its
    start token), the loop of [cal_bl_loss] cuts the sampled and the greedy
    sequence just before the first end-of-sequence token when its position
    [e] satisfies [0 < e < i], and to their first [i - 1] positions
    otherwise; the reference is cut to its positions [[1, i)]. A sequence
    of length 5 whose first end-of-sequence token is at position 3 is cut
    to length 3 (for a target length above 3). *)
Theorem bl_truncate_spec (eos_token_id i : Z) (s g t : list Z) :
  (1 <= i)%Z ->
  bl_truncate eos_token_id i s g t
  = (truncated_at_eos eos_token_id i s,
     truncated_at_eos eos_token_id i g,
     positions_from_one i t)
  /\ (length s = 5%nat -> first_index eos_token_id s = Some 3%nat ->
      (3 < i)%Z ->
      length (fst (fst (bl_truncate eos_token_id i s g t))) = 3%nat).
Proof.
  intros Hi.
  assert (E : bl_truncate eos_token_id i s g t
              = (truncated_at_eos eos_token_id i s,
                 truncated_at_eos eos_token_id i g,
                 positions_from_one i t)).
  { unfold bl_truncate. rewrite !bl_end_cut by assumption.
    rewrite slice_from_one by lia. reflexivity. }
  split; [exact E|].
  intros Hlen Hfirst Hlt. rewrite E. cbn [fst].
  unfold truncated_at_eos. rewrite Hfirst.
  destruct (Z.ltb_spec (Z.of_nat 3) i); [|lia]. cbn [Nat.ltb Nat.leb andb].
  rewrite length_firstn. lia.
Qed.

Lemma bl_truncate_spec_witness :
  bl_truncate 2 5 [7; 8; 9; 2; 2]%Z [7; 2; 9; 9; 9]%Z [0; 7; 8; 9; 2]%Z
  = ([7; 8; 9]%Z, [7]%Z, [7; 8; 9; 2]%Z)
  /\ length (fst (fst (bl_truncate 2 5 [7; 8; 9; 2; 2]%Z [7; 2; 9; 9; 9]%Z
                         [0; 7; 8; 9; 2]%Z))) = 3%nat.
Proof.
  destruct (bl_truncate_spec 2 5 [7; 8; 9; 2; 2]%Z [7; 2; 9; 9; 9]%Z
              [0; 7; 8; 9; 2]%Z) as [E H]; [lia|].
  split; [exact E|]. apply H; [reflexivity | reflexivity | lia].
Defined.

(** ** Softmax *)

Lemma sum_upto_pos (n : nat) (f : nat -> R) :
  (forall i, (i < n)%nat -> 0 < f i) -> (0 < n)%nat -> 0 < sum_upto n f.
Proof.
  intros Hf Hn. induction n as [|n IH]; [lia|].
  cbn [sum_upto]. destruct n as [|n].
  - cbn [sum_upto]. specialize (Hf O ltac:(lia)). lra.
  - assert (0 < sum_upto (S n) f) by (apply IH; [intros; apply Hf|]; lia).
    specialize (Hf (S n) ltac:(lia)). lra.
Qed.

Lemma sum_upto_div (n : nat) (f : nat -> R) (d : R) :
  sum_upto n (fun i => f i / d) = sum_upto n f / d.
Proof.
  induction n as [|n IH]; cbn [sum_upto].
  - unfold Rdiv. ring.
  - rewrite IH. unfold Rdiv. ring.
Qed.

Lemma softmax3_probability (out : Tensor3) :
  (0 < dim2 out)%nat -> probability_tensor (softmax3 out).
Proof.
  intros Hv b t _ _. cbn [softmax3 dim2 get3].
  assert (Hs : 0 < sum_upto (dim2 out) (fun k => exp (get3 out b t k)))
    by (apply sum_upto_pos; [intros; apply exp_pos | exact Hv]).
  split.
  - intros v _. apply Rlt_le. apply Rdiv_lt_0_compat; [apply exp_pos|exact Hs].
  - rewrite (sum_upto_div (dim2 out) (fun v => exp (get3 out b t v))).
    apply Rdiv_diag. lra.
Qed.

Lemma sample_3d_succeeds {RNG : Type}
    (multinomial : Tensor2 -> RNG -> option ((nat -> Z) * RNG))
    (probs : Tensor3) (g : RNG) :
  multinomial_contract multinomial ->
  probability_tensor probs ->
  exists sample_probs sample_idx g',
    sample_3d multinomial probs 1 g = Some (sample_probs, sample_idx, g').
Proof.
  intros Hmul Hprob. unfold sample_3d.
  destruct (Req_EM_T 1 1) as [_|Hne]; [|contradiction].
  destruct (sample_rows_drawn multinomial probs Hmul) with
    (todo := dim0 probs) (i := O)
    (sample_idx := zeros (dim0 probs) (dim1 probs))
    (sample_probs := zeros (dim0 probs) (dim1 probs)) (g := g)
    as (sidx & sprobs & g' & E & _); try reflexivity.
  - intros b Hb t Ht. cbn [slice0 rows2 cols2 get2] in *.
    destruct (Hprob b t Hb Ht) as [Hpos Hsum]. split; [exact Hpos|].
    rewrite Hsum. lra.
  - intros a t Ha. lia.
  - rewrite E. cbn [bind]. now exists sprobs, (long sidx), g'.
Qed.

(** ** The rewards of [cal_bl_loss] and [cal_sc_loss] *)

Lemma bl_reward_entries (seqs : list (list Z * list Z * list Z)) :
  exists reward,
    bl_reward seqs = Some reward
    /\ len1 reward = length seqs
    /\ forall b, (b < length seqs)%nat ->
         exists bleu_gre bleu_sam,
           Nltk.sentence_bleu [snd (nth b seqs ([], [], []))]
             (snd (fst (nth b seqs ([], [], [])))) = Some bleu_gre
           /\ Nltk.sentence_bleu [snd (nth b seqs ([], [], []))]
                (fst (fst (nth b seqs ([], [], [])))) = Some bleu_sam
           /\ get1 reward b = (bleu_gre - bleu_sam) * (2 / 10).
Proof.
  unfold bl_reward, cal_bl_reward.
  set (sam := fun r : list Z * list Z * list Z => fst (fst r)).
  set (gre := fun r : list Z * list Z * list Z => snd (fst r)).
  set (ref := fun r : list Z * list Z * list Z => snd r).
  destruct (bleu_each_combine (map sam seqs) (map ref seqs))
    as (bs & Es & Hls & Hs).
  destruct (bleu_each_combine (map gre seqs) (map ref seqs))
    as (bg & Eg & Hlg & Hg).
  rewrite !length_map, Nat.min_id in Hls, Hlg.
  change (map snd seqs) with (map ref seqs).
  rewrite Es, Eg. cbn [bind]. unfold sub1, FloatTensor. cbn [len1 get1].
  rewrite Hls, Hlg, bdim_same. cbn [bind len1 get1].
  eexists. split; [reflexivity|]. cbn [len1 get1]. split; [reflexivity|].
  intros b Hb. exists (nth b bg 0), (nth b bs 0).
  specialize (Hs b ltac:(lia)). specialize (Hg b ltac:(lia)).
  change (@nil Z) with (sam ([], [], [])) in Hs at 2.
  change (@nil Z) with (ref ([], [], [])) in Hs at 1.
  change (@nil Z) with (gre ([], [], [])) in Hg at 2.
  change (@nil Z) with (ref ([], [], [])) in Hg at 1.
  rewrite !map_nth in Hs, Hg.
  split; [exact Hg|]. split; [exact Hs|].
  unfold bget1. cbn [len1 get1]. rewrite !(bidx_lt _ _ Hb).
  reflexivity.
Qed.

(** C5. In [cal_bl_loss] the reward handed to [cal_reward_loss] is, row
    by row, (BLEU of the greedy sequence against the reference minus BLEU
    of the sampled sequence against the reference) times 0.2, and
    [cal_reward_loss] gets the sequence lengths [idx] for its mask. *)
Theorem cal_bl_loss_reward {RNG : Type}
    (multinomial : Tensor2 -> RNG -> option ((nat -> Z) * RNG))
    (out : Tensor3) (tgt : LongTensor2) (idx : list Z) (eos_token_id : Z)
    (g : RNG) :
  multinomial_contract multinomial ->
  (0 < dim2 out)%nat ->
  exists sample_probs sample_idx g' greedy_idx reward,
    sample_3d multinomial (softmax3 out) 1 g
      = Some (sample_probs, sample_idx, g')
    /\ max_indices (softmax3 out) = Some greedy_idx
    /\ len1 reward
       = length (bl_sequences eos_token_id idx sample_idx greedy_idx tgt)
    /\ (forall b,
          (b < length (bl_sequences eos_token_id idx sample_idx greedy_idx tgt))%nat ->
          exists bleu_gre bleu_sam,
            let row := nth b (bl_sequences eos_token_id idx sample_idx
                                greedy_idx tgt) ([], [], []) in
            Nltk.sentence_bleu [snd row] (snd (fst row)) = Some bleu_gre
            /\ Nltk.sentence_bleu [snd row] (fst (fst row)) = Some bleu_sam
            /\ get1 reward b = (bleu_gre - bleu_sam) * (2 / 10))
    /\ cal_bl_loss multinomial out tgt idx eos_token_id g
       = option_map (fun loss => (loss, g'))
           (cal_reward_loss sample_probs reward (Some idx)).
Proof.
  intros Hmul Hv.
  destruct (sample_3d_succeeds multinomial (softmax3 out) g Hmul
              (softmax3_probability out Hv)) as (sp & si & g' & Es).
  assert (Eg : exists greedy, max_indices (softmax3 out) = Some greedy).
  { unfold max_indices. cbn [softmax3 dim2].
    destruct (Nat.eqb_spec (dim2 out) 0); [lia|]. eexists. reflexivity. }
  destruct Eg as (greedy & Eg).
  destruct (bl_reward_entries
              (bl_sequences eos_token_id idx si greedy tgt))
    as (reward & Er & Hlen & Hent).
  exists sp, si, g', greedy, reward.
  split; [exact Es|]. split; [exact Eg|]. split; [exact Hlen|].
  split; [exact Hent|].
  unfold cal_bl_loss. rewrite Es. cbn [bind]. rewrite Eg. cbn [bind].
  rewrite Er. cbn [bind].
  destruct (cal_reward_loss sp reward (Some idx)); reflexivity.
Qed.

Lemma sc_reward_entries (style : Z) (tgt_cls : Tensor2) :
  cols2 tgt_cls = 2%nat ->
  exists reward,
    sc_reward style tgt_cls = Some reward
    /\ len1 reward = rows2 tgt_cls
    /\ forall b, (b < rows2 tgt_cls)%nat ->
         (style = 0%Z ->
          get1 reward b = get2 tgt_cls b 1 - get2 tgt_cls b 0)
         /\ (style = 1%Z ->
             get1 reward b = get2 tgt_cls b 0 - get2 tgt_cls b 1).
Proof.
  intros Hc. unfold sc_reward, column, sub1. rewrite Hc.
  cbn [Nat.ltb Nat.leb].
  destruct (Z.eqb_spec style 0) as [->|Hs]; cbn [bind len1 get1];
    rewrite bdim_same; cbn [bind]; eexists; (split; [reflexivity|]);
    cbn [len1 get1]; (split; [reflexivity|]); intros b Hb;
    unfold bget1; cbn [len1 get1]; rewrite !(bidx_lt _ _ Hb).
  - split; [reflexivity | discriminate].
  - split; [contradiction | reflexivity].
Qed.

(** C6. In [cal_sc_loss] the reward handed to [cal_reward_loss] is, row
    by row, the classifier's softmax probability of class 1 minus that of
    class 0 when the style flag is 0, and of class 0 minus that of class 1
    when the flag is 1. *)
Theorem cal_sc_loss_reward {RNG : Type}
    (multinomial : Tensor2 -> RNG -> option ((nat -> Z) * RNG))
    (collate_fn : list (list Z) -> LongTensor2)
    (out : Tensor3) (idx : list Z) (cls : LongTensor2 -> option Tensor2)
    (eos_token_id style : Z) (g : RNG) :
  multinomial_contract multinomial ->
  (0 < dim2 out)%nat ->
  (forall x, exists logits, cls x = Some logits /\ cols2 logits = 2%nat) ->
  exists sample_probs sample_idx g' logits reward,
    sample_3d multinomial (softmax3 out) 1 g
      = Some (sample_probs, sample_idx, g')
    /\ cls (collate_fn
              (map (fun p => sc_truncate eos_token_id (fst p) (snd p))
                 (combine idx (long_rows sample_idx)))) = Some logits
    /\ len1 reward = rows2 logits
    /\ (forall b, (b < rows2 logits)%nat ->
          (style = 0%Z ->
           get1 reward b
           = get2 (softmax2 logits) b 1 - get2 (softmax2 logits) b 0)
          /\ (style = 1%Z ->
              get1 reward b
              = get2 (softmax2 logits) b 0 - get2 (softmax2 logits) b 1))
    /\ cal_sc_loss multinomial collate_fn out idx cls eos_token_id style g
       = option_map (fun loss => (loss, g'))
           (cal_reward_loss sample_probs reward (Some idx)).
Proof.
  intros Hmul Hv Hcls.
  destruct (sample_3d_succeeds multinomial (softmax3 out) g Hmul
              (softmax3_probability out Hv)) as (sp & si & g' & Es).
  destruct (Hcls (collate_fn
                    (map (fun p => sc_truncate eos_token_id (fst p) (snd p))
                       (combine idx (long_rows si)))))
    as (logits & El & Hc).
  destruct (sc_reward_entries style (softmax2 logits) Hc)
    as (reward & Er & Hlen & Hent).
  exists sp, si, g', logits, reward.
  split; [exact Es|]. split; [exact El|]. split; [exact Hlen|].
  split; [exact Hent|].
  unfold cal_sc_loss. rewrite Es. cbn [bind]. rewrite El. cbn [bind].
  rewrite Er. cbn [bind].
  destruct (cal_reward_loss sp reward (Some idx)); reflexivity.
Qed.

Lemma cal_bl_loss_reward_witness :
  exists sample_probs sample_idx g' greedy_idx reward,
    sample_3d draw_first (softmax3 (mkT3 1 2 2 (fun _ _ _ => 0))) 1 tt
      = Some (sample_probs, sample_idx, g')
    /\ max_indices (softmax3 (mkT3 1 2 2 (fun _ _ _ => 0))) = Some greedy_idx
    /\ len1 reward
       = length (bl_sequences 2 [2%Z] sample_idx greedy_idx
                   (mkL2 1 2 (fun _ _ => 0%Z)))
    /\ (forall b,
          (b < length (bl_sequences 2 [2%Z] sample_idx greedy_idx
                         (mkL2 1 2 (fun _ _ => 0%Z))))%nat ->
          exists bleu_gre bleu_sam,
            let row := nth b (bl_sequences 2 [2%Z] sample_idx greedy_idx
                                (mkL2 1 2 (fun _ _ => 0%Z))) ([], [], []) in
            Nltk.sentence_bleu [snd row] (snd (fst row)) = Some bleu_gre
            /\ Nltk.sentence_bleu [snd row] (fst (fst row)) = Some bleu_sam
            /\ get1 reward b = (bleu_gre - bleu_sam) * (2 / 10))
    /\ cal_bl_loss draw_first (mkT3 1 2 2 (fun _ _ _ => 0))
         (mkL2 1 2 (fun _ _ => 0%Z)) [2%Z] 2 tt
       = option_map (fun loss => (loss, g'))
           (cal_reward_loss sample_probs reward (Some [2%Z])).
Proof.
  apply (cal_bl_loss_reward draw_first (mkT3 1 2 2 (fun _ _ _ => 0))
           (mkL2 1 2 (fun _ _ => 0%Z)) [2%Z] 2 tt).
  - exact draw_first_contract.
  - cbn [dim2]. lia.
Defined.

Lemma cal_sc_loss_reward_witness :
  exists sample_probs sample_idx g' logits reward,
    sample_3d draw_first (softmax3 (mkT3 1 2 2 (fun _ _ _ => 0))) 1 tt
      = Some (sample_probs, sample_idx, g')
    /\ cls_even (collate_column
                   (map (fun p => sc_truncate 2 (fst p) (snd p))
                      (combine [2%Z] (long_rows sample_idx)))) = Some logits
    /\ len1 reward = rows2 logits
    /\ (forall b, (b < rows2 logits)%nat ->
          (0%Z = 0%Z ->
           get1 reward b
           = get2 (softmax2 logits) b 1 - get2 (softmax2 logits) b 0)
          /\ (0%Z = 1%Z ->
              get1 reward b
              = get2 (softmax2 logits) b 0 - get2 (softmax2 logits) b 1))
    /\ cal_sc_loss draw_first collate_column (mkT3 1 2 2 (fun _ _ _ => 0))
         [2%Z] cls_even 2 0 tt
       = option_map (fun loss => (loss, g'))
           (cal_reward_loss sample_probs reward (Some [2%Z])).
Proof.
  apply (cal_sc_loss_reward draw_first collate_column
           (mkT3 1 2 2 (fun _ _ _ => 0)) [2%Z] cls_even 2 0 tt).
  - exact draw_first_contract.
  - cbn [dim2]. lia.
  - intros x. eexists. split; reflexivity.
Defined.

(** * Further properties of the module *)

(** ** Errors and edge cases of [cal_reward_loss] *)

Lemma bdim_none_iff (a b : nat) :
  bdim a b = None <-> (a <> b /\ a <> 1%nat /\ b <> 1%nat).
Proof.
  unfold bdim.
  destruct (Nat.eqb_spec a b); destruct (Nat.eqb_spec a 1);
    destruct (Nat.eqb_spec b 1); split; intros H;
    try discriminate; try reflexivity; try lia; try tauto.
Qed.

Ltac split_eqbs :=
  repeat match goal with
    | |- context [(?x =? ?y)%nat] => destruct (Nat.eqb_spec x y)
    | H : context [(?x =? ?y)%nat] |- _ => destruct (Nat.eqb_spec x y)
    end.

Lemma bdim_some_cases (a b r : nat) :
  bdim a b = Some r ->
  bdim r a = Some r /\ (a = r \/ a = 1%nat).
Proof.
  unfold bdim. intros H. split_eqbs; try discriminate;
    injection H as <-; subst; split; try reflexivity; try lia.
Qed.

Lemma fill_mask_overflow (idxs : list Z) :
  forall (k : nat) (mask : Tensor2),
    (k <= rows2 mask)%nat ->
    (rows2 mask < k + length idxs)%nat ->
    fill_mask (combine (seq k (length idxs)) idxs) mask = None.
Proof.
  induction idxs as [|l idxs IH]; intros k mask Hk Hover.
  - cbn [length] in Hover. lia.
  - cbn [length seq combine fill_mask] in *. unfold set_row_prefix.
    destruct (Nat.ltb_spec k (rows2 mask)) as [Hlt|Hge]; cbn [bind].
    + apply IH; cbn [rows2]; lia.
    + reflexivity.
Qed.

Lemma fill_mask_any (idxs : list Z) (B L : nat) :
  (length idxs <= B)%nat ->
  exists mask,
    fill_mask (Py.enumerate idxs) (zeros B L) = Some mask
    /\ rows2 mask = B /\ cols2 mask = L
    /\ forall i j, get2 mask i j = loop_mask L idxs i j.
Proof.
  intros Hlen.
  destruct (fill_mask_from idxs 0 (zeros B L)) as (m & E & Hr & Hc & Hg);
    [cbn [rows2 zeros]; lia|].
  exists m. repeat split; try assumption.
  intros i j. rewrite Hg. unfold loop_mask. cbn [zeros cols2 get2].
  rewrite Nat.sub_0_r. cbn [Nat.leb andb Nat.add]. reflexivity.
Qed.

(** X1. [cal_reward_loss] raises in exactly two situations: the list of
    lengths has more entries than the batch has rows (the mask row does
    not exist), or the reward does not broadcast against the batch (its
    length is neither the batch size nor 1, and the batch size is not 1).
    Without lengths only the second can happen. *)
Theorem cal_reward_loss_raises
    (sample_probs : Tensor2) (reward : Tensor1) (idxs : list Z) :
  (cal_reward_loss sample_probs reward (Some idxs) = None
   <-> (rows2 sample_probs < length idxs)%nat
       \/ (rows2 sample_probs <> len1 reward
           /\ rows2 sample_probs <> 1%nat /\ len1 reward <> 1%nat))
  /\ (cal_reward_loss sample_probs reward None = None
      <-> (rows2 sample_probs <> len1 reward
           /\ rows2 sample_probs <> 1%nat /\ len1 reward <> 1%nat)).
Proof.
  destruct sample_probs as [B L p]. destruct reward as [n r].
  cbn [rows2 len1]. rewrite <- (bdim_none_iff B n). split.
  - unfold cal_reward_loss. cbn [rows2 cols2].
    destruct (Nat.le_gt_cases (length idxs) B) as [Hle|Hgt].
    + destruct (fill_mask_any idxs B L Hle) as (m & E & Hr & Hc & _).
      rewrite E. cbn [bind]. unfold mul, neg, log, unsqueeze1.
      cbn [rows2 cols2 len1]. rewrite bdim_one_r.
      destruct (bdim B n) as [r'|] eqn:Eb; cbn [bind rows2 cols2].
      * destruct (bdim_some_cases B n r' Eb) as [Er _].
        rewrite Hr, Hc, Er, bdim_same. cbn [bind].
        unfold div1, sum_last. cbn [len1 rows2]. rewrite Hr, Er. cbn [bind].
        split; [discriminate|]. intros [H|H]; [lia | discriminate].
      * split; [now right | reflexivity].
    + unfold Py.enumerate. rewrite fill_mask_overflow;
        [|cbn [zeros rows2]; lia | cbn [zeros rows2]; lia].
      cbn [bind]. split; [now left | reflexivity].
  - unfold cal_reward_loss, mul, neg, log, unsqueeze1.
    cbn [rows2 cols2 len1]. rewrite bdim_one_r.
    destruct (bdim B n); cbn [bind]; split; intros H;
      try discriminate; reflexivity.
Qed.

Lemma cal_reward_loss_masked_value
    (sample_probs : Tensor2) (reward : Tensor1) (idxs : list Z) :
  (length idxs <= rows2 sample_probs)%nat ->
  len1 reward = rows2 sample_probs ->
  cal_reward_loss sample_probs reward (Some idxs)
  = Some
      (sum_upto (rows2 sample_probs)
         (fun i =>
            sum_upto (cols2 sample_probs)
              (fun j => - ln (get2 sample_probs i j) * get1 reward i
                        * loop_mask (cols2 sample_probs) idxs i j)
            / sum_upto (cols2 sample_probs)
                (loop_mask (cols2 sample_probs) idxs i))
       / INR (rows2 sample_probs)).
Proof.
  intros Hlen Hrew.
  destruct sample_probs as [B L p]. destruct reward as [n r].
  cbn [rows2 cols2 len1 get1 get2] in *. subst n.
  unfold cal_reward_loss. cbn [rows2 cols2].
  destruct (fill_mask_any idxs B L Hlen) as (m & E & Hr & Hc & Hg).
  rewrite E. cbn [bind].
  destruct m as [mr mc mg]. cbn [rows2 cols2 get2] in *. subst mr mc.
  unfold mul, neg, log, unsqueeze1. cbn [rows2 cols2 len1 get1 get2].
  rewrite bdim_same, bdim_one_r. cbn [bind rows2 cols2].
  rewrite !bdim_same. cbn [bind].
  unfold div1, sum_last. cbn [len1 rows2 cols2 get1 get2].
  rewrite bdim_same. cbn [bind].
  f_equal. unfold mean1. cbn [len1 get1 rows2 cols2 get2].
  f_equal. apply sum_upto_ext. intros i Hi.
  unfold bget1. cbn [len1 get1]. rewrite (bidx_lt B i Hi).
  f_equal.
  - apply sum_upto_ext. intros j Hj.
    unfold bget2. cbn [rows2 cols2 get2].
    rewrite !(bidx_lt B i Hi), !(bidx_lt L j Hj), Hg. reflexivity.
  - apply sum_upto_ext. intros j Hj. apply Hg.
Qed.

Lemma cal_reward_loss_plain_value
    (sample_probs : Tensor2) (reward : Tensor1) :
  len1 reward = rows2 sample_probs ->
  cal_reward_loss sample_probs reward None
  = Some (plain_mean_loss sample_probs reward).
Proof.
  intros Hrew.
  destruct sample_probs as [B L p]. destruct reward as [n r].
  cbn [rows2 cols2 len1] in *. subst n.
  unfold cal_reward_loss, mul, neg, log, unsqueeze1.
  cbn [rows2 cols2 len1 get1 get2].
  rewrite bdim_same, bdim_one_r. cbn [bind].
  f_equal. unfold mean2, plain_mean_loss. cbn [rows2 cols2 get2].
  f_equal. apply sum_upto_ext. intros i Hi.
  apply sum_upto_ext. intros j Hj.
  unfold bget2. cbn [rows2 cols2 get2].
  rewrite !(bidx_lt B i Hi), !(bidx_lt L j Hj). reflexivity.
Qed.

Lemma sum_upto_ones (n : nat) : sum_upto n (fun _ => 1) = INR n.
Proof.
  induction n as [|n IH]; [reflexivity|].
  cbn [sum_upto]. rewrite IH, S_INR. reflexivity.
Qed.

Lemma loop_mask_full (L : nat) (idxs : list Z) (i j : nat) :
  (i < length idxs)%nat -> (j < L)%nat ->
  (Z.of_nat L <= nth i idxs 0%Z)%Z ->
  loop_mask L idxs i j = 1.
Proof.
  intros Hi Hj Hl. unfold loop_mask, Py.slice_stop.
  destruct (Nat.ltb_spec i (length idxs)); [|lia].
  destruct (Z.ltb_spec (nth i idxs 0%Z) 0); [lia|].
  destruct (Nat.ltb_spec j (Nat.min (Z.to_nat (nth i idxs 0%Z)) L));
    [reflexivity | lia].
Qed.

(** X2. When every sequence length reaches the full width of the batch
    (a non-empty batch of non-empty rows), the masked loss is the
    unmasked one: the call with lengths returns what the call without
    them returns. *)
Theorem cal_reward_loss_full_lengths
    (sample_probs : Tensor2) (reward : Tensor1) (idxs : list Z) :
  (0 < rows2 sample_probs)%nat ->
  (0 < cols2 sample_probs)%nat ->
  len1 reward = rows2 sample_probs ->
  length idxs = rows2 sample_probs ->
  Forall (fun l => (Z.of_nat (cols2 sample_probs) <= l)%Z) idxs ->
  cal_reward_loss sample_probs reward (Some idxs)
  = cal_reward_loss sample_probs reward None.
Proof.
  intros HB HL Hrew Hlen Hfull.
  rewrite cal_reward_loss_masked_value by (assumption || lia).
  rewrite cal_reward_loss_plain_value by assumption.
  f_equal. unfold plain_mean_loss.
  set (B := rows2 sample_probs) in *. set (L := cols2 sample_probs) in *.
  assert (Hmask : forall i j, (i < B)%nat -> (j < L)%nat ->
                    loop_mask L idxs i j = 1).
  { intros i j Hi Hj. apply loop_mask_full; try lia.
    rewrite Forall_forall in Hfull. apply Hfull. apply nth_In. lia. }
  rewrite (sum_upto_ext B _
             (fun i => sum_upto L
                         (fun j => - ln (get2 sample_probs i j) * get1 reward i)
                       / INR L)).
  - rewrite sum_upto_div, mult_INR.
    assert (INR B <> 0) by (apply not_0_INR; lia).
    assert (INR L <> 0) by (apply not_0_INR; lia).
    field. split; assumption.
  - intros i Hi. f_equal.
    + apply sum_upto_ext. intros j Hj. rewrite Hmask by assumption. ring.
    + rewrite <- sum_upto_ones. apply sum_upto_ext. intros j Hj.
      now apply Hmask.
Qed.

Lemma cal_reward_loss_full_lengths_witness :
  cal_reward_loss (mkT2 2 2 (fun _ _ => 1 / 2)) (mkT1 2 (fun _ => 1))
    (Some [2%Z; 5%Z])
  = cal_reward_loss (mkT2 2 2 (fun _ _ => 1 / 2)) (mkT1 2 (fun _ => 1)) None.
Proof.
  apply (cal_reward_loss_full_lengths
           (mkT2 2 2 (fun _ _ => 1 / 2)) (mkT1 2 (fun _ => 1)) [2%Z; 5%Z]).
  - cbn [rows2]. lia.
  - cbn [cols2]. lia.
  - reflexivity.
  - reflexivity.
  - cbn [cols2]. repeat constructor; lia.
Defined.

(** X3. With lengths, the loss reads the probabilities only below each
    sequence's length: two batches of positive probabilities that agree
    there give the same loss, whatever the padding positions hold. *)
Theorem cal_reward_loss_ignores_padding
    (p q : Tensor2) (reward : Tensor1) (idxs : list Z) :
  rows2 p = rows2 q -> cols2 p = cols2 q ->
  len1 reward = rows2 p ->
  length idxs = rows2 p ->
  Forall (fun l => (0 <= l)%Z) idxs ->
  (forall i j, 0 < get2 p i j /\ 0 < get2 q i j) ->
  (forall i j, (i < rows2 p)%nat -> (Z.of_nat j < nth i idxs 0%Z)%Z ->
     get2 p i j = get2 q i j) ->
  cal_reward_loss p reward (Some idxs) = cal_reward_loss q reward (Some idxs).
Proof.
  intros Hr Hc Hrew Hlen Hnn _ Hagree.
  rewrite !cal_reward_loss_masked_value by (congruence || lia).
  rewrite <- Hr, <- Hc. f_equal. f_equal.
  apply sum_upto_ext. intros i Hi. f_equal.
  apply sum_upto_ext. intros j Hj.
  unfold loop_mask.
  destruct (Nat.ltb_spec i (length idxs)); [|lia]. cbn [andb].
  rewrite slice_stop_nonneg;
    [|rewrite Forall_forall in Hnn; apply Hnn; apply nth_In; lia|exact Hj].
  destruct (Z.ltb_spec (Z.of_nat j) (nth i idxs 0%Z)).
  - rewrite (Hagree i j) by assumption. reflexivity.
  - ring.
Qed.

Lemma cal_reward_loss_ignores_padding_witness :
  cal_reward_loss (mkT2 1 2 (fun _ _ => 1 / 2)) (mkT1 1 (fun _ => 1))
    (Some [1%Z])
  = cal_reward_loss
      (mkT2 1 2 (fun _ j => if (j =? 0)%nat then 1 / 2 else 1 / 4))
      (mkT1 1 (fun _ => 1)) (Some [1%Z]).
Proof.
  apply (cal_reward_loss_ignores_padding
           (mkT2 1 2 (fun _ _ => 1 / 2))
           (mkT2 1 2 (fun _ j => if (j =? 0)%nat then 1 / 2 else 1 / 4))
           (mkT1 1 (fun _ => 1)) [1%Z]).
  - reflexivity.
  - reflexivity.
  - reflexivity.
  - reflexivity.
  - repeat constructor; lia.
  - intros i j. cbn [get2]. destruct (j =? 0)%nat; split; lra.
  - intros i j Hi Hj. cbn [get2 rows2] in *.
    assert (i = O) by lia. subst i. cbn [nth] in Hj.
    assert (j = O) by lia. subst j. reflexivity.
Defined.

(** ** The evaluation loops *)

(** X4. Unlike the mode flag of the model, the gradient mode is scoped:
    after [evaluate] or [evaluate_sc] it is what it was before the call,
    whether the call returns, the loop body raises, or the summary line
    divides by zero. *)
Theorem evaluate_restores_grad_mode {W Batch : Type}
    (eval_batch : Batch -> World W -> outcome (World W) (R * nat * nat))
    (valid_loader : list Batch) (w : World W) :
  grad_enabled (final_state (evaluate eval_batch valid_loader w))
  = grad_enabled w
  /\ grad_enabled (final_state (evaluate_sc eval_batch valid_loader w))
     = grad_enabled w.
Proof.
  unfold evaluate, evaluate_sc, with_no_grad, model_eval.
  cbn [training grad_enabled rest].
  destruct (eval_loop W Batch eval_batch valid_loader 0 0 0
              (mkWorld false false (rest w)))
    as [[[total_num total_acc] total_loss] w'|e w']; split;
    try reflexivity.
  - destruct ((length valid_loader =? 0)%nat || (total_num =? 0)%nat)%bool;
      reflexivity.
  - destruct (total_num =? 0)%nat; reflexivity.
Qed.

(** On an empty validation loader both loops raise [ZeroDivisionError]
    when they format the summary line; by then the model has been put
    back in training mode and nothing else has changed. *)
Lemma evaluate_empty_loader {W Batch : Type}
    (eval_batch : Batch -> World W -> outcome (World W) (R * nat * nat))
    (w : World W) :
  evaluate eval_batch [] w
  = Raise ZeroDivisionError (mkWorld true (grad_enabled w) (rest w))
  /\ evaluate_sc eval_batch [] w
     = Raise ZeroDivisionError (mkWorld true (grad_enabled w) (rest w)).
Proof. split; reflexivity. Qed.

Lemma eval_loop_counts {W Batch : Type}
    (eval_batch : Batch -> World W -> outcome (World W) (R * nat * nat)) :
  (forall b w loss correct count w',
     eval_batch b w = Return (loss, correct, count) w' ->
     (correct <= count)%nat) ->
  forall loader n a l w n' a' l' w',
    (a <= n)%nat ->
    eval_loop W Batch eval_batch loader n a l w = Return (n', a', l') w' ->
    (a' <= n')%nat.
Proof.
  intros Hb. induction loader as [|b more IH];
    intros n a l w n' a' l' w' Han E; cbn [eval_loop] in E.
  - injection E as <- <- _ _. exact Han.
  - destruct (eval_batch b w) as [[[loss correct] count] w1|e w1] eqn:Eb;
      [|discriminate].
    apply (IH _ _ _ _ _ _ _ _ (Nat.add_le_mono _ _ _ _ Han
                                  (Hb _ _ _ _ _ _ Eb)) E).
Qed.

(** X6. When no batch reports more correct predictions than it has
    examples, the accuracy that [evaluate] returns (second component) and
    the accuracy that [evaluate_sc] returns (first component) lie in
    [[0, 1]]. *)
Theorem evaluate_accuracy_range {W Batch : Type}
    (eval_batch : Batch -> World W -> outcome (World W) (R * nat * nat))
    (valid_loader : list Batch) (w : World W) :
  (forall b w loss correct count w',
     eval_batch b w = Return (loss, correct, count) w' ->
     (correct <= count)%nat) ->
  match evaluate eval_batch valid_loader w with
  | Return (loss, acc) _ => 0 <= acc <= 1
  | Raise _ _ => True
  end
  /\ match evaluate_sc eval_batch valid_loader w with
     | Return (acc, loss) _ => 0 <= acc <= 1
     | Raise _ _ => True
     end.
Proof.
  intros Hb.
  assert (Hratio : forall a n : nat, (a <= n)%nat -> n <> O ->
                     0 <= INR a / INR n <= 1).
  { intros a n Han Hn.
    assert (0 < INR n) by (apply lt_0_INR; lia).
    assert (0 <= INR a) by apply pos_INR.
    assert (INR a <= INR n) by now apply le_INR.
    split.
    - apply Rmult_le_pos; [assumption|]. apply Rlt_le.
      now apply Rinv_0_lt_compat.
    - apply Rmult_le_reg_r with (INR n); [assumption|].
      unfold Rdiv. rewrite Rmult_assoc, Rinv_l by lra. lra. }
  pose proof (eval_loop_counts eval_batch Hb valid_loader O O 0
                (mkWorld false false (rest w))) as Hloop.
  unfold evaluate, evaluate_sc, with_no_grad, model_eval.
  cbn [training grad_enabled rest].
  destruct (eval_loop W Batch eval_batch valid_loader 0 0 0
              (mkWorld false false (rest w)))
    as [[[total_num total_acc] total_loss] w1|e w1].
  - specialize (Hloop _ _ _ _ (Nat.le_refl 0) eq_refl).
    split.
    + destruct (length valid_loader =? 0)%nat; [exact I|].
      destruct (Nat.eqb_spec total_num 0); [exact I|].
      cbn [orb]. now apply Hratio.
    + destruct (Nat.eqb_spec total_num 0); [exact I|]. now apply Hratio.
  - split; exact I.
Qed.

Lemma evaluate_accuracy_range_witness :
  match evaluate
          (fun (_ : unit) (w : World unit) => Return (1 / 2, 1%nat, 2%nat) w)
          [tt; tt] (mkWorld true true tt) with
  | Return (loss, acc) _ => 0 <= acc <= 1
  | Raise _ _ => True
  end
  /\ match evaluate_sc
            (fun (_ : unit) (w : World unit) => Return (1 / 2, 1%nat, 2%nat) w)
            [tt; tt] (mkWorld true true tt) with
     | Return (acc, loss) _ => 0 <= acc <= 1
     | Raise _ _ => True
     end.
Proof.
  apply (evaluate_accuracy_range
           (fun (_ : unit) (w : World unit) => Return (1 / 2, 1%nat, 2%nat) w)
           [tt; tt] (mkWorld true true tt)).
  intros b w loss correct count w' E. injection E as _ <- <- _. lia.
Defined.

(** ** Truncation at the end-of-sequence token *)

Lemma first_index_head (x : Z) (s : list Z) :
  first_index x s = Some O -> hd_error s = Some x.
Proof.
  destruct s as [|y tl]; cbn [first_index hd_error]; [discriminate|].
  destruct (Z.eqb_spec y x) as [->|_]; [reflexivity|].
  destruct (first_index x tl); discriminate.
Qed.

Lemma first_index_absent (x : Z) (s : list Z) :
  first_index x s = None -> ~ In x s.
Proof.
  induction s as [|y tl IH]; cbn [first_index]; [intros _ []|].
  destruct (Z.eqb_spec y x) as [->|Hne]; [discriminate|].
  destruct (first_index x tl); [discriminate|].
  intros _ [H|H]; [contradiction | now apply IH].
Qed.

Lemma no_token_before_first (x : Z) (s : list Z) :
  forall e k, first_index x s = Some e -> (k <= e)%nat ->
    ~ In x (firstn k s).
Proof.
  induction s as [|y tl IH]; intros e k; cbn [first_index]; [discriminate|].
  destruct (Z.eqb_spec y x) as [->|Hne].
  - intros E Hk. injection E as <-. replace k with O by lia. intros [].
  - destruct (first_index x tl) as [e'|] eqn:E'; [|discriminate].
    intros E Hk. injection E as <-.
    destruct k as [|k]; [intros []|].
    cbn [firstn]. intros [H|H]; [contradiction|].
    apply (IH e' k eq_refl); [lia | exact H].
Qed.

Lemma no_token_without_first (x : Z) (s : list Z) (k : nat) :
  first_index x s = None -> ~ In x (firstn k s).
Proof.
  intros E H. apply (first_index_absent x s E).
  rewrite <- (firstn_skipn k s). apply in_or_app. now left.
Qed.

(** X7. The sequence that [evaluate] decodes is a prefix of the greedy
    sequence: everything before the first end-of-sequence token when that
    token is among the first 30 positions, and the first 30 tokens
    otherwise. It therefore has at most 30 tokens and never holds the
    end-of-sequence token. *)
Theorem eval_truncate_spec (eos_token_id : Z) (s : list Z) :
  eval_truncate eos_token_id s
  = firstn (match first_index eos_token_id s with
            | Some e => Nat.min e 30
            | None => 30
            end) s
  /\ (length (eval_truncate eos_token_id s) <= 30)%nat
  /\ ~ In eos_token_id (eval_truncate eos_token_id s).
Proof.
  assert (E : eval_truncate eos_token_id s
              = firstn (match first_index eos_token_id s with
                        | Some e => Nat.min e 30
                        | None => 30
                        end) s).
  { unfold eval_truncate. rewrite <- (positions_eq_head eos_token_id s).
    destruct (positions_eq eos_token_id s) as [|e0 rest]; cbn [hd_error].
    - now rewrite slice_to_nonneg by lia.
    - destruct (Z.ltb_spec (Z.of_nat e0) 30).
      + rewrite slice_to_nonneg by lia. rewrite Nat2Z.id.
        now rewrite Nat.min_l by lia.
      + rewrite slice_to_nonneg by lia. now rewrite Nat.min_r by lia. }
  split; [exact E|]. rewrite E. split.
  - rewrite length_firstn.
    destruct (first_index eos_token_id s); lia.
  - destruct (first_index eos_token_id s) as [e|] eqn:Ef.
    + apply (no_token_before_first eos_token_id s e); [exact Ef | lia].
    + now apply no_token_without_first.
Qed.

(** X8. In [cal_bl_loss], for a target length [i >= 1], each of the
    three sequences appended for a row has at most [i - 1] tokens, and the
    sampled and the greedy sequence hold the end-of-sequence token only
    when they begin with it (the guard [0 < e] skips a token at
    position 0). *)
Theorem bl_truncate_bounds (eos_token_id i : Z) (s g t : list Z) :
  (1 <= i)%Z ->
  let sam := fst (fst (bl_truncate eos_token_id i s g t)) in
  let gre := snd (fst (bl_truncate eos_token_id i s g t)) in
  let ref := snd (bl_truncate eos_token_id i s g t) in
  (length sam <= Z.to_nat (i - 1))%nat
  /\ (length gre <= Z.to_nat (i - 1))%nat
  /\ (length ref <= Z.to_nat (i - 1))%nat
  /\ (In eos_token_id sam -> hd_error s = Some eos_token_id)
  /\ (In eos_token_id gre -> hd_error g = Some eos_token_id).
Proof.
  intros Hi.
  assert (Hcut : forall x : list Z,
            (length (truncated_at_eos eos_token_id i x)
             <= Z.to_nat (i - 1))%nat
            /\ (In eos_token_id (truncated_at_eos eos_token_id i x) ->
                hd_error x = Some eos_token_id)).
  { intros x. unfold truncated_at_eos.
    destruct (first_index eos_token_id x) as [e|] eqn:Ef.
    - destruct (Nat.ltb_spec 0 e); destruct (Z.ltb_spec (Z.of_nat e) i);
        cbn [andb]; rewrite length_firstn; (split; [lia|]); intros Hin.
      + exfalso.
        apply (no_token_before_first eos_token_id x e e Ef (Nat.le_refl e) Hin).
      + exfalso.
        apply (no_token_before_first eos_token_id x e (Z.to_nat (i - 1)) Ef);
          [lia | exact Hin].
      + apply first_index_head. rewrite Ef. f_equal. lia.
      + apply first_index_head. rewrite Ef. f_equal. lia.
    - rewrite length_firstn. split; [lia|]. intros Hin. exfalso.
      apply (no_token_without_first eos_token_id x _ Ef Hin). }
  unfold bl_truncate. cbn [fst snd].
  rewrite !bl_end_cut by assumption. rewrite slice_from_one by lia.
  destruct (Hcut s) as [Hs1 Hs2]. destruct (Hcut g) as [Hg1 Hg2].
  repeat split; try assumption.
  unfold positions_from_one. rewrite length_skipn, length_firstn. lia.
Qed.

Lemma bl_truncate_bounds_witness :
  (length (fst (fst (bl_truncate 2 4 [2; 8; 9; 2]%Z [7; 2; 9; 9]%Z
                       [0; 7; 8; 2]%Z))) <= Z.to_nat (4 - 1))%nat
  /\ (length (snd (fst (bl_truncate 2 4 [2; 8; 9; 2]%Z [7; 2; 9; 9]%Z
                          [0; 7; 8; 2]%Z))) <= Z.to_nat (4 - 1))%nat
  /\ (length (snd (bl_truncate 2 4 [2; 8; 9; 2]%Z [7; 2; 9; 9]%Z
                     [0; 7; 8; 2]%Z)) <= Z.to_nat (4 - 1))%nat
  /\ (In 2%Z (fst (fst (bl_truncate 2 4 [2; 8; 9; 2]%Z [7; 2; 9; 9]%Z
                          [0; 7; 8; 2]%Z))) ->
      hd_error [2; 8; 9; 2]%Z = Some 2%Z)
  /\ (In 2%Z (snd (fst (bl_truncate 2 4 [2; 8; 9; 2]%Z [7; 2; 9; 9]%Z
                          [0; 7; 8; 2]%Z))) ->
      hd_error [7; 2; 9; 9]%Z = Some 2%Z).
Proof.
  apply (bl_truncate_bounds 2 4 [2; 8; 9; 2]%Z [7; 2; 9; 9]%Z [0; 7; 8; 2]%Z).
  lia.
Defined.

(** X9. In [cal_sc_loss], for a target length [i >= 1], the sampled
    sequence is cut just before its first end-of-sequence token when the
    position [e] of that token satisfies [4 < e < i], and to its first
    [i - 1] positions otherwise. The result has at most [i - 1] tokens,
    and it can hold the end-of-sequence token only when that token first
    occurs among the positions 0 to 4. *)
Theorem sc_truncate_spec (eos_token_id i : Z) (s : list Z) :
  (1 <= i)%Z ->
  sc_truncate eos_token_id i s
  = match first_index eos_token_id s with
    | Some e =>
        if ((4 <? e)%nat && (Z.of_nat e <? i)%Z)%bool then firstn e s
        else firstn (Z.to_nat (i - 1)) s
    | None => firstn (Z.to_nat (i - 1)) s
    end
  /\ (length (sc_truncate eos_token_id i s) <= Z.to_nat (i - 1))%nat
  /\ (In eos_token_id (sc_truncate eos_token_id i s) ->
      exists e, first_index eos_token_id s = Some e /\ (e <= 4)%nat).
Proof.
  intros Hi.
  assert (E : sc_truncate eos_token_id i s
              = match first_index eos_token_id s with
                | Some e =>
                    if ((4 <? e)%nat && (Z.of_nat e <? i)%Z)%bool
                    then firstn e s
                    else firstn (Z.to_nat (i - 1)) s
                | None => firstn (Z.to_nat (i - 1)) s
                end).
  { unfold sc_truncate. rewrite <- (positions_eq_head eos_token_id s).
    destruct (positions_eq eos_token_id s) as [|e0 rest]; cbn [hd_error].
    - apply slice_to_nonneg. lia.
    - replace (4 <? Z.of_nat e0)%Z with (4 <? e0)%nat
        by (destruct (Nat.ltb_spec 4 e0);
            destruct (Z.ltb_spec 4 (Z.of_nat e0)); try reflexivity; lia).
      destruct ((4 <? e0)%nat && (Z.of_nat e0 <? i)%Z)%bool.
      + rewrite slice_to_nonneg by lia. now rewrite Nat2Z.id.
      + apply slice_to_nonneg. lia. }
  split; [exact E|]. rewrite E.
  destruct (first_index eos_token_id s) as [e|] eqn:Ef.
  - destruct (Nat.ltb_spec 4 e); destruct (Z.ltb_spec (Z.of_nat e) i);
      cbn [andb]; rewrite length_firstn; (split; [lia|]); intros Hin.
    + exfalso.
      apply (no_token_before_first eos_token_id s e e Ef (Nat.le_refl e) Hin).
    + exfalso.
      apply (no_token_before_first eos_token_id s e (Z.to_nat (i - 1)) Ef);
        [lia | exact Hin].
    + exists e. split; [reflexivity | lia].
    + exists e. split; [reflexivity | lia].
  - rewrite length_firstn. split; [lia|]. intros Hin. exfalso.
    apply (no_token_without_first eos_token_id s _ Ef Hin).
Qed.

Lemma sc_truncate_spec_witness :
  sc_truncate 2 7 [7; 8; 2; 5; 5; 2; 2; 3]%Z = [7; 8; 2; 5; 5; 2]%Z
  /\ (length (sc_truncate 2 7 [7; 8; 2; 5; 5; 2; 2; 3]%Z)
      <= Z.to_nat (7 - 1))%nat
  /\ (In 2%Z (sc_truncate 2 7 [7; 8; 2; 5; 5; 2; 2; 3]%Z) ->
      exists e, first_index 2 [7; 8; 2; 5; 5; 2; 2; 3]%Z = Some e
                /\ (e <= 4)%nat).
Proof.
  apply (sc_truncate_spec 2 7 [7; 8; 2; 5; 5; 2; 2; 3]%Z). lia.
Defined.

(** ** The range of the BLEU scores *)

Lemma list_sum_map_add {A : Type} (f g : A -> nat) (l : list A) :
  list_sum (map (fun x => (f x + g x)%nat) l)
  = (list_sum (map f l) + list_sum (map g l))%nat.
Proof. induction l as [|a l IH]; simpl; [reflexivity | lia]. Qed.

Lemma list_sum_map_le {A : Type} (f g : A -> nat) (l : list A) :
  (forall x, (f x <= g x)%nat) ->
  (list_sum (map f l) <= list_sum (map g l))%nat.
Proof.
  intros H. induction l as [|a l IH]; simpl; [lia|]. specialize (H a). lia.
Qed.

Lemma list_sum_indicator (a : Nltk.ngram) (m : list Nltk.ngram) :
  list_sum (map (fun g => if Nltk.ngram_eq_dec a g then 1%nat else O) m)
  = count_occ Nltk.ngram_eq_dec m a.
Proof.
  induction m as [|y m IH]; [reflexivity|].
  cbn [map list_sum fold_right count_occ].
  change (fold_right Nat.add O ?l) with (list_sum l). rewrite IH.
  destruct (Nltk.ngram_eq_dec a y); destruct (Nltk.ngram_eq_dec y a);
    try congruence; lia.
Qed.

Lemma count_sum_over (l : list Nltk.ngram) :
  forall m, NoDup m -> (forall g, In g l -> In g m) ->
    list_sum (map (Nltk.count l) m) = length l.
Proof.
  unfold Nltk.count.
  induction l as [|a l IH]; intros m Hnd Hcover.
  - induction m as [|y m IHm]; [reflexivity|]. simpl.
    apply IHm; [now inversion Hnd | intros g []].
  - rewrite (map_ext (count_occ Nltk.ngram_eq_dec (a :: l))
               (fun g => (count_occ Nltk.ngram_eq_dec l g
                          + (if Nltk.ngram_eq_dec a g then 1 else 0))%nat)).
    + rewrite list_sum_map_add, list_sum_indicator.
      rewrite IH by (try assumption; intros g Hg; apply Hcover; now right).
      rewrite (proj1 (NoDup_count_occ' Nltk.ngram_eq_dec m) Hnd a)
        by (apply Hcover; now left).
      cbn [length]. lia.
    + intros g. cbn [count_occ].
      destruct (Nltk.ngram_eq_dec a g); lia.
Qed.

Lemma count_sum_nodup (l : list Nltk.ngram) :
  list_sum (map (Nltk.count l) (nodup Nltk.ngram_eq_dec l)) = length l.
Proof.
  apply count_sum_over; [apply NoDup_nodup|].
  intros g Hg. now apply nodup_In.
Qed.

Lemma precision_at_most_one (references : list (list Z)) (hyp : list Z)
    (n : nat) :
  (fst (Nltk.modified_precision references hyp n)
   <= snd (Nltk.modified_precision references hyp n))%nat
  /\ (1 <= snd (Nltk.modified_precision references hyp n))%nat.
Proof.
  unfold Nltk.modified_precision. cbn [fst snd]. split; [|lia].
  pose proof (count_sum_nodup (Nltk.ngrams n hyp)) as Hsum.
  pose proof (list_sum_map_le
                (fun g => Nat.min (Nltk.count (Nltk.ngrams n hyp) g)
                            (Nltk.max_count n references g))
                (Nltk.count (Nltk.ngrams n hyp))
                (nodup Nltk.ngram_eq_dec (Nltk.ngrams n hyp))
                (fun g => Nat.le_min_l _ _)) as Hle.
  lia.
Qed.

Lemma method1_range (p_n : list (nat * nat)) :
  (forall p, In p p_n -> (fst p <= snd p)%nat /\ (1 <= snd p)%nat) ->
  forall x, In x (Nltk.method1 p_n) -> 0 < x <= 1.
Proof.
  intros Hp x Hx. unfold Nltk.method1 in Hx. apply in_map_iff in Hx.
  destruct Hx as (p & <- & Hin). destruct (Hp p Hin) as [Hle Hden].
  assert (Hd : 1 <= INR (snd p)) by (change 1 with (INR 1); now apply le_INR).
  assert (Hn : INR (fst p) <= INR (snd p)) by now apply le_INR.
  destruct (Nat.eqb_spec (fst p) 0) as [E|E].
  - rewrite E. cbn [INR]. unfold Nltk.epsilon. split.
    + apply Rdiv_lt_0_compat; lra.
    + apply Rmult_le_reg_r with (INR (snd p)); [lra|].
      unfold Rdiv. rewrite Rmult_assoc, Rinv_l by lra. lra.
  - assert (0 < INR (fst p)) by (apply lt_0_INR; lia). split.
    + apply Rdiv_lt_0_compat; lra.
    + apply Rmult_le_reg_r with (INR (snd p)); [lra|].
      unfold Rdiv. rewrite Rmult_assoc, Rinv_l by lra. lra.
Qed.

Lemma log_precisions_nonpos (ws ps : list R) :
  (forall w, In w ws -> 0 <= w) ->
  (forall p, In p ps -> 0 < p <= 1) ->
  Nltk.log_precisions ws ps <= 0.
Proof.
  unfold Nltk.log_precisions. revert ps.
  induction ws as [|w ws IH]; intros ps Hw Hp; [cbn; lra|].
  destruct ps as [|p ps]; [cbn; lra|].
  cbn [combine map fold_right fst snd].
  assert (fold_right Rplus 0
            (map (fun wp : R * R =>
                    if Rlt_dec 0 (snd wp) then fst wp * ln (snd wp) else 0)
               (combine ws ps)) <= 0)
    by (apply IH; intros; [apply Hw | apply Hp]; now right).
  destruct (Rlt_dec 0 p) as [Hpos|_]; [|lra].
  assert (ln p <= 0).
  { rewrite <- ln_1. destruct (Hp p (or_introl eq_refl)) as [_ [Hlt | ->]].
    - apply Rlt_le. now apply ln_increasing.
    - lra. }
  assert (0 <= w) by (apply Hw; now left).
  assert (w * ln p <= 0) by nra. lra.
Qed.

Lemma exp_nonpos_le_one (x : R) : x <= 0 -> exp x <= 1.
Proof.
  intros [H | ->].
  - rewrite <- exp_0. apply Rlt_le. now apply exp_increasing.
  - rewrite exp_0. lra.
Qed.

Lemma brevity_penalty_range (ref_len hyp_len : nat) :
  0 <= Nltk.brevity_penalty ref_len hyp_len <= 1.
Proof.
  unfold Nltk.brevity_penalty.
  destruct (Nat.ltb_spec ref_len hyp_len); [lra|].
  destruct (Nat.eqb_spec hyp_len 0); [lra|].
  split; [apply Rlt_le, exp_pos|].
  apply exp_nonpos_le_one.
  assert (0 < INR hyp_len) by (apply lt_0_INR; lia).
  assert (INR hyp_len <= INR ref_len) by now apply le_INR.
  assert (1 <= INR ref_len / INR hyp_len); [|lra].
  apply Rmult_le_reg_r with (INR hyp_len); [assumption|].
  unfold Rdiv. rewrite Rmult_assoc, Rinv_l by lra. lra.
Qed.

Lemma sentence_bleu_range (ref hyp : list Z) (b : R) :
  Nltk.sentence_bleu [ref] hyp = Some b -> 0 <= b <= 1.
Proof.
  unfold Nltk.sentence_bleu.
  change (Nltk.closest_ref_length [ref] (length hyp))
    with (Some (length ref)).
  cbn [bind].
  destruct (fst (nth 0 (map (Nltk.modified_precision [ref] hyp)
                          (seq 1 (length Nltk.weights))) (O, O)) =? 0)%nat;
    intros E; injection E as <-; [lra|].
  match goal with
  | |- 0 <= ?bp * exp ?lp <= 1 =>
      assert (Hbp : 0 <= bp <= 1) by apply brevity_penalty_range;
      assert (Hlp : lp <= 0); [|generalize dependent lp;
                                generalize dependent bp]
  end.
  { apply log_precisions_nonpos.
    - intros w Hw. unfold Nltk.weights in Hw. cbn [In] in Hw.
      decompose [or] Hw; subst; try lra; contradiction.
    - refine (method1_range
                (map (Nltk.modified_precision [ref] hyp)
                   (seq 1 (length Nltk.weights))) _).
      intros p Hp. apply in_map_iff in Hp.
      destruct Hp as (n & <- & _). apply precision_at_most_one. }
  intros bp Hbp lp Hlp.
  pose proof (exp_nonpos_le_one lp Hlp) as He.
  pose proof (exp_pos lp) as Hep.
  split; [apply Rmult_le_pos; lra | nra].
Qed.

(** X10. Every score returned by [cal_bl_reward] lies in [[0, 1]]. *)
Theorem cal_bl_reward_range (inp tgt : list (list Z)) :
  exists bleus,
    cal_bl_reward inp tgt = Some bleus
    /\ forall i, (i < len1 bleus)%nat -> 0 <= get1 bleus i <= 1.
Proof.
  destruct (bleu_each_combine inp tgt) as (bs & Ebs & Hlen & Hnth).
  unfold cal_bl_reward. rewrite Ebs. cbn [bind].
  eexists. split; [reflexivity|]. cbn [FloatTensor len1 get1].
  intros i Hi.
  apply (sentence_bleu_range (nth i tgt []) (nth i inp [])).
  now apply Hnth.
Qed.

(** ** A sequence scored against itself *)

Lemma ngrams_length (n : nat) (s : list Z) :
  (1 <= n)%nat -> length (Nltk.ngrams n s) = (length s + 1 - n)%nat.
Proof.
  intros Hn. induction s as [|a tl IH]; cbn [Nltk.ngrams].
  - cbn [length]. lia.
  - destruct (Nat.leb_spec n (length (a :: tl))) as [H|H];
      cbn [length] in *; [rewrite IH|]; lia.
Qed.

Lemma precision_self (n : nat) (s : list Z) :
  fst (Nltk.modified_precision [s] s n) = length (Nltk.ngrams n s).
Proof.
  unfold Nltk.modified_precision, Nltk.max_count. cbn [fst fold_left].
  rewrite (map_ext _ (Nltk.count (Nltk.ngrams n s)))
    by (intros g; lia).
  apply count_sum_nodup.
Qed.

Lemma precision_self_full (n : nat) (s : list Z) :
  (1 <= n <= length s)%nat ->
  exists k, Nltk.modified_precision [s] s n = (k, k) /\ (1 <= k)%nat.
Proof.
  intros Hn. exists (length (Nltk.ngrams n s)).
  pose proof (precision_self n s) as Hf.
  pose proof (ngrams_length n s ltac:(lia)) as Hl.
  destruct (Nltk.modified_precision [s] s n) as [num den] eqn:E.
  cbn [fst] in Hf. subst num.
  assert (den = Nat.max 1 (length (Nltk.ngrams n s)))
    by (unfold Nltk.modified_precision in E; now injection E as _ <-).
  split; [f_equal|]; lia.
Qed.

Lemma log_precisions_neg (ws ps : list R) :
  length ws = length ps ->
  (forall w, In w ws -> 0 < w) ->
  (forall p, In p ps -> 0 < p <= 1) ->
  (exists p, In p ps /\ p < 1) ->
  Nltk.log_precisions ws ps < 0.
Proof.
  revert ps. induction ws as [|w ws IH]; intros [|p ps] Hlen Hw Hp Hex;
    try discriminate.
  - destruct Hex as (p & [] & _).
  - assert (Hrest : Nltk.log_precisions ws ps <= 0).
    { apply log_precisions_nonpos.
      - intros v Hv. apply Rlt_le, Hw. now right.
      - intros v Hv. apply Hp. now right. }
    assert (Hw0 : 0 < w) by (apply Hw; now left).
    destruct (Hp p (or_introl eq_refl)) as [Hp0 Hp1].
    unfold Nltk.log_precisions in *.
    cbn [combine map fold_right fst snd].
    destruct (Rlt_dec 0 p) as [_|]; [|contradiction].
    destruct Hp1 as [Hlt | ->].
    + assert (ln p < 0) by (rewrite <- ln_1; now apply ln_increasing).
      assert (w * ln p < 0) by nra. lra.
    + rewrite ln_1, Rmult_0_r, Rplus_0_l.
      apply IH.
      * now injection Hlen.
      * intros v Hv. apply Hw. now right.
      * intros v Hv. apply Hp. now right.
      * destruct Hex as (q & [<-|Hq] & Hq1); [lra|]. now exists q.
Qed.

Lemma sentence_bleu_self (s : list Z) :
  ((4 <= length s)%nat -> Nltk.sentence_bleu [s] s = Some 1)
  /\ ((length s < 4)%nat ->
      exists b, Nltk.sentence_bleu [s] s = Some b /\ b < 1).
Proof.
  unfold Nltk.sentence_bleu.
  change (Nltk.closest_ref_length [s] (length s)) with (Some (length s)).
  change (seq 1 (length Nltk.weights)) with [1; 2; 3; 4]%nat.
  cbn [bind map nth].
  assert (Hbp : (length s <> 0)%nat ->
                Nltk.brevity_penalty (length s) (length s) = 1).
  { intros Hne. unfold Nltk.brevity_penalty. rewrite Nat.ltb_irrefl.
    destruct (Nat.eqb_spec (length s) 0); [contradiction|].
    rewrite Rdiv_diag by (apply not_0_INR; assumption).
    rewrite Rminus_diag. apply exp_0. }
  split.
  - intros Hlen.
    destruct (precision_self_full 1 s ltac:(lia)) as (k1 & E1 & H1).
    destruct (precision_self_full 2 s ltac:(lia)) as (k2 & E2 & H2).
    destruct (precision_self_full 3 s ltac:(lia)) as (k3 & E3 & H3).
    destruct (precision_self_full 4 s ltac:(lia)) as (k4 & E4 & H4).
    rewrite E1, E2, E3, E4. cbn [fst].
    unfold Nltk.method1. cbn [map fst snd].
    destruct (Nat.eqb_spec k1 0); [lia|].
    rewrite Hbp by lia.
    destruct (Nat.eqb_spec k2 0); [lia|].
    destruct (Nat.eqb_spec k3 0); [lia|].
    destruct (Nat.eqb_spec k4 0); [lia|].
    rewrite !Rdiv_diag by (apply not_0_INR; assumption).
    unfold Nltk.log_precisions, Nltk.weights.
    cbn [combine map fold_right fst snd].
    destruct (Rlt_dec 0 1) as [_|Hn]; [|lra].
    rewrite ln_1. f_equal. rewrite Rmult_1_l.
    rewrite <- exp_0. f_equal. ring.
  - intros Hlen.
    destruct (fst (Nltk.modified_precision [s] s 1) =? 0)%nat eqn:E0.
    + exists 0. split; [reflexivity | lra].
    + eexists. split; [reflexivity|].
      assert (Hne : (length s <> 0)%nat).
      { intros Hz. rewrite precision_self, ngrams_length in E0 by lia.
        rewrite Hz in E0. discriminate. }
      rewrite Hbp by assumption. rewrite Rmult_1_l.
      rewrite <- exp_0. apply exp_increasing.
      apply log_precisions_neg.
      * reflexivity.
      * intros w Hw. unfold Nltk.weights in Hw. cbn [In] in Hw.
        decompose [or] Hw; subst; try lra; contradiction.
      * refine (method1_range
                  [Nltk.modified_precision [s] s 1;
                   Nltk.modified_precision [s] s 2;
                   Nltk.modified_precision [s] s 3;
                   Nltk.modified_precision [s] s 4] _).
        intros p Hp. cbn [In] in Hp.
        decompose [or] Hp; subst; try apply precision_at_most_one;
          contradiction.
      * exists (1 / 10). split; [|lra].
        assert (E4 : Nltk.modified_precision [s] s 4 = (O, 1%nat)).
        { pose proof (precision_self 4 s) as Hf.
          pose proof (ngrams_length 4 s ltac:(lia)) as Hl.
          destruct (Nltk.modified_precision [s] s 4) as [num den] eqn:E.
          cbn [fst] in Hf.
          assert (den = Nat.max 1 (length (Nltk.ngrams 4 s)))
            by (unfold Nltk.modified_precision in E; now injection E as _ <-).
          f_equal; lia. }
        unfold Nltk.method1. cbn [map]. rewrite E4. cbn [fst snd Nat.eqb INR].
        right. right. right. left. unfold Nltk.epsilon. field.
Qed.

(** X11. A sequence scored against itself gets exactly 1 when it has at
    least 4 tokens, and less than 1 when it is shorter: an n-gram order
    the sequence is too short for counts as a smoothed zero match. *)
Theorem cal_bl_reward_self (inp : list (list Z)) :
  exists bleus,
    cal_bl_reward inp inp = Some bleus
    /\ len1 bleus = length inp
    /\ forall i, (i < length inp)%nat ->
         ((4 <= length (nth i inp []))%nat -> get1 bleus i = 1)
         /\ ((length (nth i inp []) < 4)%nat -> get1 bleus i < 1).
Proof.
  destruct (bleu_each_combine inp inp) as (bs & E & Hlen & Hnth).
  unfold cal_bl_reward. rewrite E. cbn [bind].
  exists (FloatTensor bs). split; [reflexivity|].
  cbn [FloatTensor len1 get1]. split; [lia|].
  intros i Hi. specialize (Hnth i ltac:(lia)).
  destruct (sentence_bleu_self (nth i inp [])) as [Hfull Hshort].
  split; intros Hl.
  - rewrite (Hfull Hl) in Hnth. now injection Hnth as <-.
  - destruct (Hshort Hl) as (b & Eb & Hb).
    rewrite Eb in Hnth. now injection Hnth as <-.
Qed.

(** X12. The reward that [cal_bl_loss] computes for a row lies in
    [[-0.2, 0.2]], and it is 0 for a row whose sampled sequence equals its
    greedy sequence. *)
Theorem bl_reward_bounds (seqs : list (list Z * list Z * list Z)) :
  exists reward,
    bl_reward seqs = Some reward
    /\ len1 reward = length seqs
    /\ forall b, (b < length seqs)%nat ->
         - (2 / 10) <= get1 reward b <= 2 / 10
         /\ (fst (fst (nth b seqs ([], [], [])))
             = snd (fst (nth b seqs ([], [], []))) ->
             get1 reward b = 0).
Proof.
  destruct (bl_reward_entries seqs) as (reward & E & Hlen & Hent).
  exists reward. split; [exact E|]. split; [exact Hlen|].
  intros b Hb. destruct (Hent b Hb) as (bg & bs & Eg & Es & Hr).
  pose proof (sentence_bleu_range _ _ _ Eg) as Hg.
  pose proof (sentence_bleu_range _ _ _ Es) as Hs.
  rewrite Hr. split; [lra|].
  intros Hsame. rewrite Hsame in Es. rewrite Es in Eg.
  injection Eg as ->. ring.
Qed.

(** ** Sampling with a temperature *)

(** X13. At a temperature other than 1 (and 0), on a probability tensor
    and with [torch.multinomial] behaving as documented, [sample_3d]
    returns indices in [[0, vocab)], and the value it returns beside each
    index is the temperature-scaled weight [exp(log(p + 1e-20) / T)] of
    the sampled entry, not its probability [p]. *)
Theorem sample_3d_temperature {RNG : Type}
    (multinomial : Tensor2 -> RNG -> option ((nat -> Z) * RNG))
    (probs : Tensor3) (temperature : R) (g : RNG) :
  multinomial_contract multinomial ->
  probability_tensor probs ->
  temperature <> 1 -> temperature <> 0 ->
  exists sample_probs sample_idx g',
    sample_3d multinomial probs temperature g
      = Some (sample_probs, sample_idx, g')
    /\ rows2 sample_probs = dim0 probs /\ cols2 sample_probs = dim1 probs
    /\ lrows sample_idx = dim0 probs /\ lcols sample_idx = dim1 probs
    /\ forall b t, (b < dim0 probs)%nat -> (t < dim1 probs)%nat ->
         (0 <= lget sample_idx b t < Z.of_nat (dim2 probs))%Z
         /\ get2 sample_probs b t
            = exp (ln (get3 probs b t (Z.to_nat (lget sample_idx b t))
                       + 1 / 10 ^ 20)
                   / temperature).
Proof.
  intros Hmul Hprob HT1 HT0. unfold sample_3d.
  destruct (Req_EM_T temperature 1) as [E1|_]; [contradiction|].
  set (temp := mkT3 (dim0 probs) (dim1 probs) (dim2 probs)
                 (fun b l v =>
                    exp (ln (get3 probs b l v + 1 / 10 ^ 20) / temperature))).
  destruct (sample_rows_drawn multinomial temp Hmul) with
    (todo := dim0 temp) (i := O)
    (sample_idx := zeros (dim0 probs) (dim1 probs))
    (sample_probs := zeros (dim0 probs) (dim1 probs)) (g := g)
    as (sidx & sprobs & g' & E & Hr1 & Hc1 & Hr2 & Hc2 & Hd);
    try reflexivity.
  - intros b Hb t Ht. cbn [temp slice0 dim0 dim1 dim2 rows2 cols2 get2 get3] in *.
    split; [intros v _; apply Rlt_le, exp_pos|].
    apply sum_upto_pos; [intros; apply exp_pos|].
    destruct (Hprob b t Hb Ht) as [_ Hsum].
    destruct (dim2 probs); [cbn [sum_upto] in Hsum; lra | lia].
  - intros a t Ha. lia.
  - rewrite E. cbn [bind].
    exists sprobs, (long sidx), g'. split; [reflexivity|].
    unfold drawn in Hd. subst temp.
    cbn [long lrows lcols lget dim0 dim1 dim2 get3] in *.
    repeat split; try assumption.
    + destruct (Hd b t H H0) as (z & Hz & Ei & _).
      rewrite Ei, trunc_IZR. lia.
    + destruct (Hd b t H H0) as (z & Hz & Ei & _).
      rewrite Ei, trunc_IZR. lia.
    + destruct (Hd b t H H0) as (z & Hz & Ei & Ep).
      rewrite Ei, trunc_IZR. exact Ep.
Qed.

Lemma sample_3d_temperature_witness :
  exists sample_probs sample_idx g',
    sample_3d draw_first (mkT3 1 1 1 (fun _ _ _ => 1)) 2 tt
      = Some (sample_probs, sample_idx, g')
    /\ rows2 sample_probs = 1%nat /\ cols2 sample_probs = 1%nat
    /\ lrows sample_idx = 1%nat /\ lcols sample_idx = 1%nat
    /\ forall b t, (b < 1)%nat -> (t < 1)%nat ->
         (0 <= lget sample_idx b t < Z.of_nat 1)%Z
         /\ get2 sample_probs b t = exp (ln (1 + 1 / 10 ^ 20) / 2).
Proof.
  apply (sample_3d_temperature draw_first (mkT3 1 1 1 (fun _ _ _ => 1)) 2 tt).
  - exact draw_first_contract.
  - intros b t Hb Ht. cbn [dim2 get3 sum_upto]. split; [intros; lra | lra].
  - lra.
  - lra.
Defined.

(** ** The style reward *)

Lemma cal_reward_loss_opp
    (sample_probs : Tensor2) (reward reward' : Tensor1)
    (idxs : option (list Z)) :
  len1 reward' = len1 reward ->
  (forall i, get1 reward' i = - get1 reward i) ->
  cal_reward_loss sample_probs reward' idxs
  = option_map Ropp (cal_reward_loss sample_probs reward idxs).
Proof.
  destruct reward as [n r]. destruct reward' as [n' r'].
  cbn [len1 get1]. intros -> Hpt.
  unfold cal_reward_loss. destruct idxs as [idxs|].
  - destruct (fill_mask _ _) as [mask|]; cbn [bind option_map];
      [|reflexivity].
    unfold mul, div1, sum_last, unsqueeze1, neg, log.
    cbn [rows2 cols2 len1 get1 get2].
    split_bdims. f_equal. unfold mean1. cbn [len1 get1].
    match goal with
    | |- sum_upto ?k ?f / _ = - (sum_upto _ ?h / _) =>
        assert (Es : sum_upto k f = -1 * sum_upto k h)
    end.
    { rewrite <- sum_upto_scal. apply sum_upto_ext. intros i _.
      unfold bget1. cbn [len1 get1].
      match goal with
      | |- sum_upto ?k ?f / _ = -1 * (sum_upto _ ?h / _) =>
          assert (Ei : sum_upto k f = -1 * sum_upto k h)
      end.
      { rewrite <- sum_upto_scal. apply sum_upto_ext. intros j _.
        unfold bget2. cbn [rows2 cols2 get2]. rewrite Hpt. ring. }
      rewrite Ei. unfold Rdiv. ring. }
    rewrite Es. unfold Rdiv. ring.
  - unfold mul, unsqueeze1, neg, log.
    cbn [rows2 cols2 len1 get1 get2].
    split_bdims. f_equal. unfold mean2. cbn [rows2 cols2 get2].
    match goal with
    | |- sum_upto ?k ?f / _ = - (sum_upto _ ?h / _) =>
        assert (Es : sum_upto k f = -1 * sum_upto k h)
    end.
    { rewrite <- sum_upto_scal. apply sum_upto_ext. intros i _.
      rewrite <- sum_upto_scal. apply sum_upto_ext. intros j _.
      unfold bget2. cbn [rows2 cols2 get2]. rewrite Hpt. ring. }
    rewrite Es. unfold Rdiv. ring.
Qed.

(** X14. With everything else equal (inputs, classifier, random draws),
    [cal_sc_loss] for style 1 is the negation of [cal_sc_loss] for
    style 0; and every style flag other than 0 is treated as 1. *)
Theorem cal_sc_loss_style_flip {RNG : Type}
    (multinomial : Tensor2 -> RNG -> option ((nat -> Z) * RNG))
    (collate_fn : list (list Z) -> LongTensor2)
    (out : Tensor3) (idx : list Z) (cls : LongTensor2 -> option Tensor2)
    (eos_token_id : Z) (g : RNG) :
  cal_sc_loss multinomial collate_fn out idx cls eos_token_id 1 g
  = option_map (fun r => (- fst r, snd r))
      (cal_sc_loss multinomial collate_fn out idx cls eos_token_id 0 g)
  /\ forall style, style <> 0%Z ->
       cal_sc_loss multinomial collate_fn out idx cls eos_token_id style g
       = cal_sc_loss multinomial collate_fn out idx cls eos_token_id 1 g.
Proof.
  split.
  - unfold cal_sc_loss.
    destruct (sample_3d multinomial (softmax3 out) 1 g)
      as [[[sp si] g']|]; cbn [bind option_map]; [|reflexivity].
    destruct (cls _) as [logits|]; cbn [bind option_map]; [|reflexivity].
    unfold sc_reward. cbn [Z.eqb]. unfold column.
    destruct (1 <? cols2 (softmax2 logits))%nat;
      destruct (0 <? cols2 (softmax2 logits))%nat;
      cbn [bind option_map]; try reflexivity.
    unfold sub1. cbn [len1]. rewrite bdim_same. cbn [bind].
    match goal with
    | |- context [cal_reward_loss sp ?r1 (Some idx)] =>
        match goal with
        | |- context [option_map _ (bind (cal_reward_loss sp ?r0 _) _)] =>
            rewrite (cal_reward_loss_opp sp r0 r1 (Some idx))
        end
    end.
    + destruct (cal_reward_loss sp _ (Some idx)); reflexivity.
    + reflexivity.
    + intros i. cbn [get1]. ring.
  - intros style Hs. unfold cal_sc_loss, sc_reward.
    destruct (Z.eqb_spec style 0); [contradiction|]. reflexivity.
Qed.



(** ** The attention mask of [evaluate] *)

(** X16. The attention mask that [evaluate] hands to the model is [None]
    exactly when the batch holds no pad id; otherwise it is a fresh
    integer tensor of the shape of the batch, 0 at the entries equal to
    the pad id and 1 everywhere else. The batch itself is not changed. *)
Theorem attention_mask_spec
    (st : Store.store) (src : Store.addr) (shape : list nat)
    (data : list Z) (pad_token_id : Z) :
  nth_error st src = Some (Store.Long shape data) ->
  exists res st',
    attention_mask src pad_token_id st = Some (res, st')
    /\ nth_error st' src = Some (Store.Long shape data)
    /\ (res = None <-> ~ In pad_token_id data)
    /\ (forall m, res = Some m ->
          nth_error st' m
          = Some (Store.Long shape
                    (map (fun v => if (v =? pad_token_id)%Z then 0%Z else 1%Z)
                       data))).
Proof.
  intros Hin.
  unfold attention_mask, make_padding_mask, Store.eq. rewrite Hin.
  cbn [bind].
  set (mask := map (fun v => (v =? pad_token_id)%Z) data).
  pose proof (alloc_fresh (Store.Bool shape mask) st) as Hf1.
  pose proof (fun a v => alloc_keeps (Store.Bool shape mask) v st a) as Hk1.
  destruct (Store.alloc (Store.Bool shape mask) st) as [m1 st1].
  cbn [fst snd] in Hf1, Hk1.
  unfold Store.any. rewrite Hf1. cbn [bind].
  pose proof (any_eq_iff pad_token_id data) as Hany. fold mask in Hany.
  destruct (existsb (fun b => b) mask) eqn:Eany; cbn [negb bind].
  - unfold StoreOps.long. rewrite Hf1.
    set (ints := map (fun b : bool => if b then 1%Z else 0%Z) mask).
    pose proof (alloc_fresh (Store.Long shape ints) st1) as Hf2.
    pose proof (fun a v => alloc_keeps (Store.Long shape ints) v st1 a) as Hk2.
    destruct (Store.alloc (Store.Long shape ints) st1) as [m2 st2].
    cbn [fst snd] in Hf2, Hk2. cbn [bind].
    unfold StoreOps.rsub. rewrite Hf2.
    set (attn := map (fun v => (1 - v)%Z) ints).
    pose proof (alloc_fresh (Store.Long shape attn) st2) as Hf3.
    pose proof (fun a v => alloc_keeps (Store.Long shape attn) v st2 a) as Hk3.
    destruct (Store.alloc (Store.Long shape attn) st2) as [m3 st3].
    cbn [fst snd] in Hf3, Hk3. cbn [bind].
    eexists. eexists. split; [reflexivity|].
    split; [apply Hk3, Hk2, Hk1, Hin|].
    split.
    + split; [discriminate|]. intros Hno. exfalso. apply Hno.
      now apply Hany.
    + intros m Hm. injection Hm as <-. rewrite Hf3. do 2 f_equal.
      unfold attn, ints, mask. rewrite !map_map. apply map_ext.
      intros v. destruct (v =? pad_token_id)%Z; reflexivity.
  - eexists. eexists. split; [reflexivity|].
    split; [apply Hk1, Hin|].
    split.
    + split; [|reflexivity]. intros _ Hp. apply Hany in Hp. discriminate.
    + intros m Hm. discriminate.
Qed.

Lemma attention_mask_spec_witness :
  exists res st',
    attention_mask O 1%Z [Store.Long [1; 3]%nat [5%Z; 1%Z; 1%Z]]
      = Some (res, st')
    /\ nth_error st' O = Some (Store.Long [1; 3]%nat [5%Z; 1%Z; 1%Z])
    /\ (res = None <-> ~ In 1%Z [5%Z; 1%Z; 1%Z])
    /\ (forall m, res = Some m ->
          nth_error st' m = Some (Store.Long [1; 3]%nat [1%Z; 0%Z; 0%Z])).
Proof.
  apply (attention_mask_spec
           [Store.Long [1; 3]%nat [5%Z; 1%Z; 1%Z]] O [1; 3]%nat
           [5%Z; 1%Z; 1%Z] 1%Z).
  reflexivity.
Defined.

(** ** When the two losses return *)

Lemma sample_3d_shapes {RNG : Type}
    (multinomial : Tensor2 -> RNG -> option ((nat -> Z) * RNG))
    (probs : Tensor3) (g : RNG) :
  multinomial_contract multinomial ->
  probability_tensor probs ->
  exists sample_probs sample_idx g',
    sample_3d multinomial probs 1 g = Some (sample_probs, sample_idx, g')
    /\ rows2 sample_probs = dim0 probs /\ cols2 sample_probs = dim1 probs
    /\ lrows sample_idx = dim0 probs /\ lcols sample_idx = dim1 probs.
Proof.
  intros Hmul Hprob. unfold sample_3d.
  destruct (Req_EM_T 1 1) as [_|Hne]; [|contradiction].
  destruct (sample_rows_drawn multinomial probs Hmul) with
    (todo := dim0 probs) (i := O)
    (sample_idx := zeros (dim0 probs) (dim1 probs))
    (sample_probs := zeros (dim0 probs) (dim1 probs)) (g := g)
    as (sidx & sprobs & g' & E & Hr1 & Hc1 & Hr2 & Hc2 & _);
    try reflexivity.
  - intros b Hb t Ht. cbn [slice0 rows2 cols2 get2] in *.
    destruct (Hprob b t Hb Ht) as [Hpos Hsum]. split; [exact Hpos|].
    rewrite Hsum. lra.
  - intros a t Ha. lia.
  - rewrite E. cbn [bind]. exists sprobs, (long sidx), g'.
    cbn [long lrows lcols]. repeat split; assumption.
Qed.

Lemma long_rows_length (t : LongTensor2) : length (long_rows t) = lrows t.
Proof. unfold long_rows. now rewrite length_map, length_seq. Qed.

Lemma zip4_length {A B C D : Type} (a : list A) :
  forall (b : list B) (c : list C) (d : list D),
    length b = length a -> length c = length a -> length d = length a ->
    length (zip4 a b c d) = length a.
Proof.
  induction a as [|x a IH]; intros [|y b] [|z c] [|w d] Hb Hc Hd;
    try discriminate; cbn [zip4 length] in *; [reflexivity|].
  f_equal. apply IH; lia.
Qed.

(** X17. [cal_bl_loss] returns a loss, and does not raise, whenever the
    vocabulary is not empty and the lengths and the targets have one
    entry per row of the batch ([torch.multinomial] behaving as
    documented). *)
Theorem cal_bl_loss_returns {RNG : Type}
    (multinomial : Tensor2 -> RNG -> option ((nat -> Z) * RNG))
    (out : Tensor3) (tgt : LongTensor2) (idx : list Z) (eos_token_id : Z)
    (g : RNG) :
  multinomial_contract multinomial ->
  (0 < dim2 out)%nat ->
  length idx = dim0 out ->
  lrows tgt = dim0 out ->
  exists loss g',
    cal_bl_loss multinomial out tgt idx eos_token_id g = Some (loss, g').
Proof.
  intros Hmul Hv Hidx Htgt.
  destruct (sample_3d_shapes multinomial (softmax3 out) g Hmul
              (softmax3_probability out Hv))
    as (sp & si & g' & Es & Hr & Hc & Hlr & Hlc).
  cbn [softmax3 dim0 dim1] in Hr, Hc, Hlr, Hlc.
  unfold cal_bl_loss. rewrite Es. cbn [bind].
  unfold max_indices. cbn [softmax3 dim0 dim1 dim2].
  destruct (Nat.eqb_spec (dim2 out) 0); [lia|]. cbn [bind].
  match goal with
  | |- context [bl_reward ?seqs] =>
      destruct (bl_reward_entries seqs) as (reward & Er & Hlen & _);
      assert (Hseqs : length seqs = dim0 out)
  end.
  { unfold bl_sequences. rewrite length_map, zip4_length;
      rewrite ?long_rows_length; cbn [lrows]; congruence. }
  rewrite Er. cbn [bind].
  rewrite cal_reward_loss_masked_value by (rewrite ?Hlen; lia).
  cbn [bind]. eexists. eexists. reflexivity.
Qed.

Lemma cal_bl_loss_returns_witness :
  exists loss g',
    cal_bl_loss draw_first (mkT3 1 2 2 (fun _ _ _ => 0))
      (mkL2 1 2 (fun _ _ => 0%Z)) [2%Z] 2 tt = Some (loss, g').
Proof.
  apply (cal_bl_loss_returns draw_first (mkT3 1 2 2 (fun _ _ _ => 0))
           (mkL2 1 2 (fun _ _ => 0%Z)) [2%Z] 2 tt).
  - exact draw_first_contract.
  - cbn [dim2]. lia.
  - reflexivity.
  - reflexivity.
Defined.

(** X18. [cal_sc_loss] returns a loss, and does not raise, whenever the
    vocabulary is not empty, there is one length per row of the batch,
    the collation keeps one row per sequence and the classifier returns
    two logits per row ([torch.multinomial] behaving as documented). *)
Theorem cal_sc_loss_returns {RNG : Type}
    (multinomial : Tensor2 -> RNG -> option ((nat -> Z) * RNG))
    (collate_fn : list (list Z) -> LongTensor2)
    (out : Tensor3) (idx : list Z) (cls : LongTensor2 -> option Tensor2)
    (eos_token_id style : Z) (g : RNG) :
  multinomial_contract multinomial ->
  (0 < dim2 out)%nat ->
  length idx = dim0 out ->
  (forall seqs, lrows (collate_fn seqs) = length seqs) ->
  (forall x, exists logits,
     cls x = Some logits /\ rows2 logits = lrows x /\ cols2 logits = 2%nat) ->
  exists loss g',
    cal_sc_loss multinomial collate_fn out idx cls eos_token_id style g
    = Some (loss, g').
Proof.
  intros Hmul Hv Hidx Hcol Hcls.
  destruct (sample_3d_shapes multinomial (softmax3 out) g Hmul
              (softmax3_probability out Hv))
    as (sp & si & g' & Es & Hr & Hc & Hlr & Hlc).
  cbn [softmax3 dim0 dim1] in Hr, Hc, Hlr, Hlc.
  unfold cal_sc_loss. rewrite Es. cbn [bind].
  match goal with
  | |- context [cls (collate_fn ?seqs)] =>
      destruct (Hcls (collate_fn seqs)) as (logits & El & Hrows & Hcols);
      assert (Hseqs : length seqs = dim0 out)
  end.
  { rewrite length_map, length_combine, long_rows_length. lia. }
  rewrite El. cbn [bind].
  destruct (sc_reward_entries style (softmax2 logits) Hcols)
    as (reward & Er & Hlen & _).
  rewrite Er. cbn [bind].
  cbn [softmax2 rows2] in Hlen.
  rewrite cal_reward_loss_masked_value
    by (rewrite ?Hlen, ?Hrows, ?Hcol; lia).
  cbn [bind]. eexists. eexists. reflexivity.
Qed.

Lemma cal_sc_loss_returns_witness :
  exists loss g',
    cal_sc_loss draw_first collate_column (mkT3 1 2 2 (fun _ _ _ => 0))
      [2%Z] cls_even 2 0 tt = Some (loss, g').
Proof.
  apply (cal_sc_loss_returns draw_first collate_column
           (mkT3 1 2 2 (fun _ _ _ => 0)) [2%Z] cls_even 2 0 tt).
  - exact draw_first_contract.
  - cbn [dim2]. lia.
  - reflexivity.
  - intros seqs. reflexivity.
  - intros x. eexists. repeat split; reflexivity.
Defined.

(** ** Evaluation without examples *)

Lemma eval_loop_no_examples {W Batch : Type}
    (eval_batch : Batch -> World W -> outcome (World W) (R * nat * nat)) :
  (forall b w, exists loss correct w',
     eval_batch b w = Return (loss, correct, O) w') ->
  forall loader n a l w,
    exists a' l' w',
      eval_loop W Batch eval_batch loader n a l w = Return (n, a', l') w'.
Proof.
  intros Hb. induction loader as [|b more IH]; intros n a l w.
  - exists a, l, w. reflexivity.
  - cbn [eval_loop]. destruct (Hb b w) as (loss & correct & w1 & E).
    rewrite E. rewrite Nat.add_0_r. apply IH.
Qed.

(** X5. When the validation set holds no example (the loader is empty,
    or every batch is), [evaluate] and [evaluate_sc] both raise
    [ZeroDivisionError] while formatting the summary line, after the
    model has been put back in training mode. *)
Theorem evaluate_no_examples {W Batch : Type}
    (eval_batch : Batch -> World W -> outcome (World W) (R * nat * nat))
    (valid_loader : list Batch) (w : World W) :
  (forall b w, exists loss correct w',
     eval_batch b w = Return (loss, correct, O) w') ->
  exists w1 w2,
    evaluate eval_batch valid_loader w = Raise ZeroDivisionError w1
    /\ training w1 = true
    /\ evaluate_sc eval_batch valid_loader w = Raise ZeroDivisionError w2
    /\ training w2 = true.
Proof.
  intros Hb.
  destruct (eval_loop_no_examples eval_batch Hb valid_loader O O 0
              (mkWorld false false (rest w))) as (a' & l' & w' & E).
  unfold evaluate, evaluate_sc, with_no_grad, model_eval, model_train.
  cbn [training grad_enabled rest]. rewrite E.
  cbn [training grad_enabled rest Nat.eqb]. rewrite orb_true_r.
  eexists. eexists. repeat split.
Qed.

Lemma evaluate_no_examples_witness :
  exists w1 w2,
    evaluate (fun (_ : unit) (w : World unit) => Return (0, O, O) w)
      [tt] (mkWorld false true tt) = Raise ZeroDivisionError w1
    /\ training w1 = true
    /\ evaluate_sc (fun (_ : unit) (w : World unit) => Return (0, O, O) w)
         [tt] (mkWorld false true tt) = Raise ZeroDivisionError w2
    /\ training w2 = true.
Proof.
  apply (evaluate_no_examples
           (fun (_ : unit) (w : World unit) => Return (0, O, O) w)
           [tt] (mkWorld false true tt)).
  intros b w. exists 0, O, w. reflexivity.
Defined.
